(** * DancingTiles: beat detection, light-source pool and panel compositing

    A shallow embedding of [DancingTiles/src/AuroraPlugin.cpp].

    The plugin keeps its state in file-level statics; here they are the
    fields of one record that every function passes along.  The C types
    [float] and [double] are IEEE 754 binary32 and binary64; they are
    modelled bit-exactly with the operations of [SpecFloat], rounding to
    nearest, ties to even.  A conversion or an array access that the
    language leaves undefined makes the function return [None]. *)

From Stdlib Require Import ZArith List Bool Lia QArith.
From Stdlib Require Import Floats.SpecFloat.
Import ListNotations.
Open Scope Z_scope.

(** ** The option monad for undefined behaviour *)

Definition bind {A B : Type} (m : option A) (k : A -> option B) : option B :=
  match m with
  | Some a => k a
  | None => None
  end.

Notation "x <- m ;; k" := (bind m (fun x => k))
  (at level 61, m at next level, right associativity).
Notation "' pat <- m ;; k" := (bind m (fun x => match x with pat => k end))
  (at level 61, pat pattern, m at next level, right associativity).

(** ** Machine integers *)

Module CInt.

Definition INT_MIN : Z := - 2 ^ 31.
Definition INT_MAX : Z := 2 ^ 31 - 1.

(** Arithmetic on [uint32_t] wraps modulo 2^32. *)
Definition u32 (z : Z) : Z := z mod 2 ^ 32.

(** [uint32_t] to [int]: the two's-complement reading. *)
Definition to_int (z : Z) : Z :=
  let w := u32 z in if w <? 2 ^ 31 then w else w - 2 ^ 32.

Definition in_int (z : Z) : bool := (INT_MIN <=? z) && (z <=? INT_MAX).

End CInt.

(** ** IEEE 754 binary32 and binary64 *)

Module Flt.

Definition float := spec_float.
Definition double := spec_float.

Definition fprec : Z := 24.
Definition femax : Z := 128.
Definition dprec : Z := 53.
Definition demax : Z := 1024.

Definition fadd : float -> float -> float := SFadd fprec femax.
Definition fsub : float -> float -> float := SFsub fprec femax.
Definition fmul : float -> float -> float := SFmul fprec femax.
Definition fdiv : float -> float -> float := SFdiv fprec femax.
Definition fsqrt : float -> float := SFsqrt fprec femax.

Definition dadd : double -> double -> double := SFadd dprec demax.
Definition dsub : double -> double -> double := SFsub dprec demax.
Definition dmul : double -> double -> double := SFmul dprec demax.
Definition ddiv : double -> double -> double := SFdiv dprec demax.

(** Integer to floating point, rounded when the integer does not fit. *)
Definition float_of_int (z : Z) : float := binary_normalize fprec femax z 0 false.
Definition double_of_int (z : Z) : double := binary_normalize dprec demax z 0 false.

(** Widening is exact, narrowing rounds. *)
Definition double_of_float (x : float) : double :=
  match x with
  | S754_finite s m e => binary_round dprec demax s m e
  | _ => x
  end.

Definition float_of_double (x : double) : float :=
  match x with
  | S754_finite s m e => binary_round fprec femax s m e
  | _ => x
  end.

(** The integral part, towards zero; undefined on NaN and the infinities. *)
Definition truncate (x : spec_float) : option Z :=
  match x with
  | S754_zero _ => Some 0
  | S754_finite s m e =>
      Some (cond_Zopp s
              (match e with
               | Zneg p => Z.pos m / 2 ^ Z.pos p
               | _ => Z.pos m * 2 ^ e
               end))
  | _ => None
  end.

(** Floating point to [int]: undefined when the integral part is not an [int]. *)
Definition int_of_float (x : spec_float) : option Z :=
  z <- truncate x ;;
  if CInt.in_int z then Some z else None.

(** A decimal literal [n/d] of type [double] is the double nearest to it:
    the correctly rounded quotient of two exactly represented integers. *)
Definition dlit (n d : Z) : double := ddiv (double_of_int n) (double_of_int d).

Definition is_zero (x : spec_float) : bool :=
  match x with S754_zero _ => true | _ => false end.


(** The exact rational value of a finite number. *)
Definition to_Q (x : spec_float) : Q :=
  match x with
  | S754_finite s m e =>
      match e with
      | Zneg p => Qmake (cond_Zopp s (Z.pos m)) (2 ^ p)
      | _ => inject_Z (cond_Zopp s (Z.pos m * 2 ^ e))
      end
  | _ => 0%Q
  end.

End Flt.

Import Flt.

(** ** Compile-time constants of the plugin *)

Definition BASE_COLOUR_R : Z := 0.
Definition BASE_COLOUR_G : Z := 0.
Definition BASE_COLOUR_B : Z := 0.
Definition ADJACENT_PANEL_DISTANCE : double := dlit 86599995 1000000.
Definition TRANSITION_TIME : Z := 1.
Definition MINIMUM_INTENSITY : double := dlit 2 10.
Definition TRIGGER_THRESHOLD : double := dlit 7 10.
Definition SPAWN_AMOUNT : nat := 1.
Definition LIFESPAN : Z := 1.
Definition TEMPO_ENABLED : bool := false.
Definition MININMUM_MULTIPLIER : double := dlit 15 10.
Definition SKIP_COUNT : Z := 50.

(** ** Data *)

Record source_t := mk_source {
  x : float;
  y : float;
  R : Z;
  G : Z;
  B : Z;
  age : Z
}.

Record freq_bin := mk_bin {
  latest_minimum : Z;
  soundPower : Z;
  colour : Z;
  runningMax : Z;
  runningMin : Z;
  maximumTrigger : Z;
  previousPower : Z;
  secondPreviousPower : Z
}.

(** ** The running maximum *)

(** [int addToRunningMax(int runningMax, int valueToAdd, int effectiveTrail)]:
    the two quotients are [float] divisions, the sum is a [float], and the
    [return] converts it to [int]. *)
Definition addToRunningMax (runningMax valueToAdd effectiveTrail : Z) : option Z :=
  let trail :=
    if (valueToAdd >? runningMax) && (effectiveTrail >? 1)
    then Z.quot effectiveTrail 2
    else effectiveTrail in
  int_of_float
    (fadd (fsub (float_of_int runningMax)
                (fdiv (float_of_int runningMax) (float_of_int effectiveTrail)))
          (fdiv (float_of_int valueToAdd) (float_of_int trail))).

(** ** The beat detector *)

(** The test [soundPower > latest_minimum + runningMax * TRIGGER_THRESHOLD]:
    the three [uint32_t] operands are converted to [double]. *)
Definition trigger (sp lm rm : Z) : bool :=
  SFltb (dadd (double_of_int lm) (dmul (double_of_int rm) TRIGGER_THRESHOLD))
        (double_of_int sp).

(** [beat_detector(i)] on the bin [freqBins[i]]: the updated bin and the flag. *)
Definition beat_detector (b : freq_bin) : option (freq_bin * Z) :=
  let sp := soundPower b in
  let prev := previousPower b in
  (* local maximum: fold the previous sample into the running maximum *)
  rm <- (if (CInt.u32 (sp + runningMax b / 4) <? prev)
            && (prev >? secondPreviousPower b)
         then r <- addToRunningMax (CInt.to_int (runningMax b)) (CInt.to_int prev) 4 ;;
              Some (CInt.u32 r)
         else Some (runningMax b)) ;;
  (* latest minimum *)
  let lm :=
    if sp <? latest_minimum b then sp
    else if latest_minimum b >? 0 then latest_minimum b - 1
    else latest_minimum b in
  (* the beat criterion *)
  let beat := trigger sp lm rm in
  let lm' := if beat then sp else lm in
  Some (mk_bin lm' sp (colour b) rm (runningMin b) (maximumTrigger b)
               sp prev,
        if beat then 1 else 0).

(** ** Layout, palette, frames and the plugin state *)

(** The centroid of a panel's shape, [getCentroid()], has [double] coordinates. *)
Record Panel := mk_panel {
  panelId : Z;
  centroid_x : double;
  centroid_y : double
}.

(** [LayoutData]: [nPanels] is the number of entries of [panels]. *)
Record LayoutData := mk_layout {
  panels : list Panel
}.

Definition nPanels (l : LayoutData) : Z := Z.of_nat (length (panels l)).

Module RGB.
Record t := mk { R : Z; G : Z; B : Z }.
End RGB.

Module Frame.
Record t := mk { panelId : Z; r : Z; g : Z; b : Z; transTime : Z }.
End Frame.

(** The statics of the file.  The array [sources] with its count [nSources]
    is the list of the live entries; [cnt] is the static local of
    [getPluginFrame]; [rand48] is the state of the C library's generator. *)
Record plugin := mk_plugin {
  palettenColors : list RGB.t;
  nColors : Z;
  layoutData : LayoutData;
  sources : list source_t;
  freqBins : list freq_bin;
  cnt : Z;
  rand48 : Z
}.

Definition nSources (p : plugin) : Z := Z.of_nat (length (sources p)).
Definition MAX_PALETTE_nColors (l : LayoutData) : Z := nPanels l - 2.
Definition MAX_SOURCES (l : LayoutData) : Z := nPanels l * LIFESPAN.

Definition set_sources (p : plugin) (s : list source_t) : plugin :=
  mk_plugin (palettenColors p) (nColors p) (layoutData p) s (freqBins p) (cnt p) (rand48 p).
Definition set_freqBins (p : plugin) (f : list freq_bin) : plugin :=
  mk_plugin (palettenColors p) (nColors p) (layoutData p) (sources p) f (cnt p) (rand48 p).
Definition set_cnt (p : plugin) (c : Z) : plugin :=
  mk_plugin (palettenColors p) (nColors p) (layoutData p) (sources p) (freqBins p) c (rand48 p).
Definition set_rand48 (p : plugin) (s : Z) : plugin :=
  mk_plugin (palettenColors p) (nColors p) (layoutData p) (sources p) (freqBins p) (cnt p) s.

Definition set_soundPower (b : freq_bin) (v : Z) : freq_bin :=
  mk_bin (latest_minimum b) v (colour b) (runningMax b) (runningMin b)
         (maximumTrigger b) (previousPower b) (secondPreviousPower b).
Definition set_maximumTrigger (b : freq_bin) (v : Z) : freq_bin :=
  mk_bin (latest_minimum b) (soundPower b) (colour b) (runningMax b) (runningMin b)
         v (previousPower b) (secondPreviousPower b).
Definition set_age (s : source_t) (a : Z) : source_t :=
  mk_source (x s) (y s) (R s) (G s) (B s) a.

(** Array reads and writes; outside the array they are undefined. *)
Definition nth_Z {A : Type} (l : list A) (i : Z) : option A :=
  if i <? 0 then None else nth_error l (Z.to_nat i).

Fixpoint update_nth {A : Type} (l : list A) (i : nat) (v : A) : option (list A) :=
  match l, i with
  | [], _ => None
  | _ :: t, O => Some (v :: t)
  | h :: t, S j => t' <- update_nth t j v ;; Some (h :: t')
  end.

Definition update_Z {A : Type} (l : list A) (i : Z) (v : A) : option (list A) :=
  if i <? 0 then None else update_nth l (Z.to_nat i) v.

(** ** The source pool *)

(** [removeSource(idx)]: the entries after [idx] move down by one. *)
Definition removeSource (idx : nat) (srcs : list source_t) : option (list source_t) :=
  if (idx <? length srcs)%nat
  then Some (firstn idx srcs ++ skipn (S idx) srcs)
  else None.

(** [drand48()]: the 48-bit linear congruential generator of the C library;
    the result is the new state scaled by 2^-48. *)
Definition drand48 (seed : Z) : double * Z :=
  let seed' := (25214903917 * seed + 11) mod 2 ^ 48 in
  (binary_normalize dprec demax seed' (-48) false, seed').

(** [R *= intensity] on an [int]: a [float] product converted back. *)
Definition scale (c : Z) (intensity : float) : option Z :=
  int_of_float (fmul (float_of_int c) intensity).

(** One turn of the loop of [addSource]. *)
Definition spawn (paletteIndex : Z) (intensity : float) (p : plugin) : option plugin :=
  let '(u, seed') := drand48 (rand48 p) in
  let p := set_rand48 p seed' in
  n1 <- int_of_float (dmul u (double_of_int (nPanels (layoutData p)))) ;;
  panel <- nth_Z (panels (layoutData p)) n1 ;;
  let x := float_of_double (centroid_x panel) in
  let y := float_of_double (centroid_y panel) in
  c <- nth_Z (palettenColors p) paletteIndex ;;
  R <- scale (RGB.R c) intensity ;;
  G <- scale (RGB.G c) intensity ;;
  B <- scale (RGB.B c) intensity ;;
  srcs <- (if nSources p >=? MAX_SOURCES (layoutData p)
           then removeSource 0 (sources p)
           else Some (sources p)) ;;
  Some (set_sources p (srcs ++ [mk_source x y R G B 0])).

Fixpoint times (n : nat) (f : plugin -> option plugin) (p : plugin) : option plugin :=
  match n with
  | O => Some p
  | S k => p' <- f p ;; times k f p'
  end.

(** [addSource(paletteIndex, intensity)]. *)
Definition addSource (paletteIndex : Z) (intensity : float) (p : plugin) : option plugin :=
  if nPanels (layoutData p) <? 2 then Some p
  else times SPAWN_AMOUNT (spawn paletteIndex intensity) p.

(** The aging loop that ends [getPluginFrame]:
    [for (i = 0; i < nSources; i++)
       if (sources[i].age == LIFESPAN) removeSource(0); else sources[i].age++;]
    The bound [nSources] is read again at every turn.  [fuel] bounds the
    number of turns; [None] is returned only when it runs out. *)
Fixpoint age_loop (fuel : nat) (i : nat) (srcs : list source_t) : option (list source_t) :=
  match nth_error srcs i with
  | None => Some srcs
  | Some s =>
      match fuel with
      | O => None
      | S fuel' =>
          srcs' <- (if age s =? LIFESPAN
                    then removeSource 0 srcs
                    else update_nth srcs i (set_age s (age s + 1))) ;;
          age_loop fuel' (S i) srcs'
      end
  end.

Definition age_sources (srcs : list source_t) : option (list source_t) :=
  age_loop (length srcs) 0 srcs.

(** ** Compositing *)

Definition distance (x1 y1 x2 y2 : float) : float :=
  let dx := fsub x2 x1 in
  let dy := fsub y2 y1 in
  fsqrt (fadd (fmul dx dx) (fmul dy dy)).

Definition d_one : double := double_of_int 1.

(** How much of a source is mixed into a panel at [(px, py)].
    [TEMPO_ENABLED] is false, so [multiplier] is [MININMUM_MULTIPLIER]. *)
Definition mix_factor (px py : float) (s : source_t) : float :=
  let d := distance px py (x s) (y s) in
  let d := float_of_double (ddiv (double_of_float d) ADJACENT_PANEL_DISTANCE) in
  let d2 := fmul d d in
  let multiplier := float_of_double MININMUM_MULTIPLIER in
  float_of_double (ddiv d_one (dadd (double_of_float (fmul d2 multiplier)) d_one)).

(** [acc = acc * (1.0 - factor) + c * factor] for one channel. *)
Definition blend (acc : float) (c : Z) (factor : float) : float :=
  float_of_double
    (dadd (dmul (double_of_float acc) (dsub d_one (double_of_float factor)))
          (double_of_float (fmul (float_of_int c) factor))).

Definition mix (px py : float) (acc : float * float * float) (s : source_t)
  : float * float * float :=
  let '(r, g, b) := acc in
  let factor := mix_factor px py s in
  (blend r (R s) factor, blend g (G s) factor, blend b (B s) factor).

(** [renderPanel(panel, &R, &G, &B)]. *)
Definition renderPanel (panel : Panel) (srcs : list source_t) : option (Z * Z * Z) :=
  let px := float_of_double (centroid_x panel) in
  let py := float_of_double (centroid_y panel) in
  let base := (float_of_int BASE_COLOUR_R, float_of_int BASE_COLOUR_G,
               float_of_int BASE_COLOUR_B) in
  let '(r, g, b) := fold_left (mix px py) srcs base in
  R <- int_of_float r ;;
  G <- int_of_float g ;;
  B <- int_of_float b ;;
  Some (R, G, B).

(** ** The frame *)

Section WithLog.

(** [log] belongs to the C library.  The plugin uses it in one expression,
    [log((float)soundPower) / log((float)runningMax)]; the [double] that
    this quotient yields for the two integers is a parameter. *)
Variable log_quotient : Z -> Z -> double.

Definition f_one : float := float_of_double d_one.

(** The intensity of the source that a beat of bin [b] spawns. *)
Definition beat_intensity (b : freq_bin) : float :=
  let intensity :=
    if (soundPower b >? 1) && (runningMax b >? 1)
    then float_of_double
           (dadd (dmul (log_quotient (soundPower b) (runningMax b))
                       (dsub d_one MINIMUM_INTENSITY))
                 MINIMUM_INTENSITY)
    else f_one in
  if SFltb d_one (double_of_float intensity) then f_one else intensity.

(** The body of the loop over the bins, for bin [i]. *)
Definition process_bin (fftBins : list Z) (i : Z) (p : plugin) : option plugin :=
  b <- nth_Z (freqBins p) i ;;
  power <- nth_Z fftBins i ;;
  '(b, beat_detected) <- beat_detector (set_soundPower b power) ;;
  if beat_detected mod 256 =? 0
  then bins <- update_Z (freqBins p) i b ;; Some (set_freqBins p bins)
  else
    let b := if soundPower b >? maximumTrigger b
             then set_maximumTrigger b (soundPower b) else b in
    bins <- update_Z (freqBins p) i b ;;
    addSource i (beat_intensity b) (set_freqBins p bins).

(** [for (i = from; i < from + n; i++) body(i)]. *)
Fixpoint for_loop {S : Type} (n : nat) (from : Z) (body : Z -> S -> option S) (s : S)
  : option S :=
  match n with
  | O => Some s
  | Datatypes.S k => s' <- body from s ;; for_loop k (from + 1) body s'
  end.

(** The body of the loop over the panels: render panel [i] into [frames[i]]. *)
Definition render_into (p : plugin) (i : Z) (frames : list Frame.t)
  : option (list Frame.t) :=
  panel <- nth_Z (panels (layoutData p)) i ;;
  '(R, G, B) <- renderPanel panel (sources p) ;;
  update_Z frames i (Frame.mk (panelId panel) R G B TRANSITION_TIME).

(** [getPluginFrame(frames, &nFrames, sleepTime)] with the bytes that
    [getFftBins()] points to.  The result is the new state, the buffer
    [frames] and the cell [*nFrames]. *)
Definition getPluginFrame (fftBins : list Z) (p : plugin)
           (frames : list Frame.t) (nFrames : Z)
  : option (plugin * list Frame.t * Z) :=
  if cnt p <? SKIP_COUNT then Some (set_cnt p (cnt p + 1), frames, nFrames)
  else
    p <- for_loop (Z.to_nat (nColors p)) 0 (process_bin fftBins) p ;;
    frames <- for_loop (length (panels (layoutData p))) 0 (render_into p) frames ;;
    srcs <- age_sources (sources p) ;;
    Some (set_sources p srcs, frames, nPanels (layoutData p)).

End WithLog.

(** ** Initialisation *)

(** [new T[n]] of a negative [n] throws. *)
Definition new_array {A : Type} (n : Z) (content : nat -> A) : option (list A) :=
  if n <? 0 then None else Some (map content (seq 0 (Z.to_nat n))).

(** [initPlugin()].  [layout] and [palette] are what [getLayoutData()] and
    [getColorPalette()] hand over; [raw_bins] is what the fresh array of bins
    happens to hold (only three fields of a bin are initialised); [seed] is
    the state of the generator. *)
Definition initPlugin (layout : LayoutData) (palette : list RGB.t)
           (raw_bins : nat -> freq_bin) (seed : Z) : option plugin :=
  let nColors := Z.of_nat (length palette) in
  let nColors := if nColors >? MAX_PALETTE_nColors layout
                 then MAX_PALETTE_nColors layout else nColors in
  _ <- (if MAX_SOURCES layout <? 0 then None else Some tt) ;;
  bins <- new_array (MAX_PALETTE_nColors layout)
            (fun i => let b := raw_bins i in
                      if (Z.of_nat i <? nColors)
                      then mk_bin 0 (soundPower b) (colour b) 50 (runningMin b) 1
                                  (previousPower b) (secondPreviousPower b)
                      else b) ;;
  Some (mk_plugin palette nColors layout [] bins 0 seed).

(** ** Runs of the pool and of the plugin *)

(** What happens to the pool: a call of [addSource], or the aging loop. *)
Inductive pool_op :=
| Spawn (paletteIndex : Z) (intensity : float)
| Age.

Definition age_pool (p : plugin) : option plugin :=
  srcs <- age_sources (sources p) ;; Some (set_sources p srcs).

Definition pool_step (op : pool_op) (p : plugin) : option plugin :=
  match op with
  | Spawn i a => addSource i a p
  | Age => age_pool p
  end.

Fixpoint pool_run (ops : list pool_op) (p : plugin) : option plugin :=
  match ops with
  | [] => Some p
  | op :: rest => p' <- pool_step op p ;; pool_run rest p'
  end.

(** One tick of the pool: the spawns of the beats, then the aging loop. *)
Definition tick (spawns : list (Z * float)) : list pool_op :=
  map (fun s => Spawn (fst s) (snd s)) spawns ++ [Age].

(** Successive calls of [getPluginFrame], one list of FFT bytes per call. *)
Fixpoint frames_run (log_quotient : Z -> Z -> double) (calls : list (list Z))
         (p : plugin) (frames : list Frame.t) (nFrames : Z)
  : option (plugin * list Frame.t * Z) :=
  match calls with
  | [] => Some (p, frames, nFrames)
  | fft :: rest =>
      '(p', frames', nFrames') <- getPluginFrame log_quotient fft p frames nFrames ;;
      frames_run log_quotient rest p' frames' nFrames'
  end.

(** ** What the specification says of the running maximum *)

(** [current - current/effectiveTrail + sample/trail], over the rationals. *)
Definition running_max_formula (current sample effectiveTrail : Z) : Q :=
  let trail :=
    if (sample >? current) && (effectiveTrail >? 1)
    then Z.quot effectiveTrail 2
    else effectiveTrail in
  (inject_Z current - inject_Z current / inject_Z effectiveTrail
   + inject_Z sample / inject_Z trail)%Q.


(** Integer ranges, for the facts that are checked value by value. *)
Fixpoint Zrange (lo : Z) (n : nat) : list Z :=
  match n with
  | O => []
  | S k => lo :: Zrange (lo + 1) k
  end.


(** ** A layout, a palette and a state for the examples *)

Definition panel_at (id px py : Z) : Panel :=
  mk_panel id (double_of_int px) (double_of_int py).

Definition one_panel : LayoutData := mk_layout [panel_at 10 0 0].

Definition four_panels : LayoutData :=
  mk_layout [panel_at 10 0 0; panel_at 11 87 0; panel_at 12 174 0; panel_at 13 261 0].

Definition red_green : list RGB.t := [RGB.mk 255 0 0; RGB.mk 0 255 0].

Definition blank_bin : freq_bin := mk_bin 0 0 0 0 0 0 0 0.

(** The state that [srand48] has not touched: 0x1234ABCD330E. *)
Definition default_seed : Z := 20017429951246.

(** Four panels and two colours, just initialised. *)
Definition fresh_plugin : plugin :=
  mk_plugin red_green 2 four_panels []
            [mk_bin 0 0 0 50 0 1 0 0; mk_bin 0 0 0 50 0 1 0 0] 0 default_seed.

(** One panel, no colours, nothing spawned. *)
Definition lonely_plugin : plugin :=
  mk_plugin [] 0 one_panel [] [] 0 default_seed.

Definition black_frame : Frame.t := Frame.mk 0 0 0 0 0.

(** A stand-in for the quotient of logarithms where its value plays no part. *)
Definition unit_quotient (_ _ : Z) : double := d_one.

(** A bin whose floor stands at 100 when a sample of 10 arrives. *)
Definition loud_then_quiet_bin : freq_bin := mk_bin 100 10 0 50 0 1 0 0.

(** Three ticks of the pool: the first bin beats in the first tick, the
    second bin in the second tick, and the third tick is silent. *)
Definition two_beats_then_silence : list pool_op :=
  tick [(0, f_one)] ++ tick [(1, f_one)] ++ tick [].

(** ** Tables for the facts that are checked value by value *)

(** The colour channels of the data model. *)
Definition channel (c : Z) : Prop := 0 <= c <= 255.





Definition amber_source : source_t :=
  mk_source (float_of_int 0) (float_of_int 0) 255 128 7 0.
Definition teal_source : source_t :=
  mk_source (float_of_int 87) (float_of_int 3) 0 200 200 1.

(** The two summands of [addToRunningMax] when the trail is 4. *)
Definition keep (c : Z) : float :=
  fsub (float_of_int c) (fdiv (float_of_int c) (float_of_int 4)).
Definition gain (s t : Z) : float := fdiv (float_of_int s) (float_of_int t).

(** Three quarters of [c] plus a half or a quarter of [s], towards zero. *)
Definition blended_max (c s : Z) : Z :=
  Z.quot (3 * c + (if s >? c then 2 else 1) * s) 4.

Definition running_max_row_ok (c : Z) (k : float) (row : Z * float * float) : bool :=
  let '(s, g2, g4) := row in
  match int_of_float (fadd k (if s >? c then g2 else g4)) with
  | Some r => r =? blended_max c s
  | None => false
  end.

(** [addToRunningMax c s 4] against [blended_max c s] for [c < nc], [s < ns];
    every quotient is computed once. *)
Definition running_max_table_ok (nc ns : nat) : bool :=
  let gains := map (fun s => (s, gain s 2, gain s 4)) (Zrange 0 ns) in
  forallb (fun c => forallb (running_max_row_ok c (keep c)) gains) (Zrange 0 nc).

(** The threshold term of the beat criterion. *)
Definition threshold (rm : Z) : double := dmul (double_of_int rm) TRIGGER_THRESHOLD.

(** [soundPower > floor + threshold], on operands already converted. *)
Definition exceeds (sp floor t : double) : bool := SFltb (dadd floor t) sp.

(** The floor that the detector compares with when the sample is above it. *)
Definition decayed (lm : Z) : Z := if lm >? 0 then lm - 1 else lm.

(** The sound power of the claim: [latestMinimum + runningMax*0.7 + 1], the
    product cut down to an integer. *)
Definition held_power (lm rm : Z) : Z := lm + 7 * rm / 10 + 1.

(** [floors] holds the decayed floors of [lm], [lm+1], ... and [levels] the
    sound powers [s-1], [s], [s+1], ...: at every position the beat fires
    over the decayed floor and does not fire over [s-1]. *)
Fixpoint beat_walk_ok (t : double) (floors levels : list double) : bool :=
  match floors, levels with
  | f :: floors', below :: ((sp :: _) as levels') =>
      exceeds sp f t && negb (exceeds sp below t) && beat_walk_ok t floors' levels'
  | _, _ => true
  end.

(** All running maxima from 2 up and all floors for which the held power is
    a byte. *)
Definition beat_table_ok : bool :=
  let floors := map (fun lm => double_of_int (decayed lm)) (Zrange 0 256) in
  let levels := map double_of_int (Zrange 0 256) in
  forallb (fun rm =>
             beat_walk_ok (threshold rm) floors
                          (skipn (Z.to_nat (held_power 0 rm - 1)) levels))
          (Zrange 2 364).

(** The same table for floors and powers below [n] and [m] running maxima
    from 2 up. *)
Definition beat_rows_ok (n m : nat) : bool :=
  forallb (fun rm =>
             beat_walk_ok (threshold rm)
                          (map (fun lm => double_of_int (decayed lm)) (Zrange 0 n))
                          (skipn (Z.to_nat (held_power 0 rm - 1))
                                 (map double_of_int (Zrange 0 n))))
          (Zrange 2 m).

(** A bin at its defaults, and one whose running maximum has come down to 0. *)
Definition default_bin : freq_bin := mk_bin 0 0 0 50 0 1 0 0.
Definition flat_bin : freq_bin := mk_bin 0 0 0 0 0 1 0 0.
Definition faint_bin : freq_bin := mk_bin 0 0 0 1 0 1 0 0.

(** Successive calls of [beat_detector] on one bin, one sample per call. *)
Fixpoint feed (samples : list Z) (b : freq_bin) : option freq_bin :=
  match samples with
  | [] => Some b
  | sp :: rest => '(b', _) <- beat_detector (set_soundPower b sp) ;; feed rest b'
  end.

(** Ever smaller peaks, each followed by silence. *)
Definition fading_peaks : list Z :=
  [13; 0; 11; 0; 9; 0; 7; 0; 6; 0; 5; 0; 4; 0; 3; 0; 3; 0; 2; 0; 2; 0; 2; 0; 1; 0; 1; 0].

(** ** Further notions for the properties of the code *)

(** Neither a negative number nor minus infinity. *)
Definition not_negative (v : spec_float) : bool :=
  match v with
  | S754_finite true _ _ | S754_infinity true => false
  | _ => true
  end.

(** A bin as byte-range samples keep it: floor and history are bytes and the
    running maximum lies within 1..510. *)
Definition byte_bin (b : freq_bin) : Prop :=
  0 <= latest_minimum b <= 255 /\
  1 <= runningMax b <= 510 /\
  0 <= previousPower b <= 255 /\
  0 <= secondPreviousPower b <= 255.

Definition byte (z : Z) : Prop := 0 <= z <= 255.

(** A source without its age. *)
Definition ageless (s : source_t) : float * float * Z * Z * Z :=
  (x s, y s, R s, G s, B s).

(** An age that the aging loop can leave behind. *)
Definition age_in_range (s : source_t) : Prop := 0 <= age s <= LIFESPAN.

Definition older (s : source_t) : source_t := set_age s (age s + 1).

(** Full intensity keeps a channel. *)
Definition scale_full_ok (c : Z) : bool :=
  match scale c f_one with
  | Some r => r =? c
  | None => false
  end.

(** What the bin loop and the aging loop keep of a state: the layout [L], the
    palette, the number of colours, the number of bins, a pool within its
    capacity and ages within range. *)
Definition steady (L : LayoutData) (pal : list RGB.t) (n : Z) (bins : nat) (c : Z)
           (p : plugin) : Prop :=
  layoutData p = L /\ palettenColors p = pal /\ nColors p = n /\
  length (freqBins p) = bins /\ cnt p = c /\
  nSources p <= MAX_SOURCES L /\ Forall age_in_range (sources p).

(** A state past the warm-up, with a beat about to come in the first bin. *)
Definition warm_plugin : plugin := set_cnt fresh_plugin 50.
(** * Properties *)

(** ** Arrays *)

Lemma update_nth_length {A : Type} (l : list A) (i : nat) (v : A) (l' : list A) :
  update_nth l i v = Some l' -> length l' = length l.
Proof.
  revert i l'; induction l as [|h t IH]; intros i l' H.
  - destruct i; discriminate.
  - destruct i as [|j]; simpl in H.
    + inversion H; reflexivity.
    + destruct (update_nth t j v) as [t'|] eqn:E; simpl in H; [|discriminate].
      inversion H; simpl; f_equal; eauto.
Qed.

Lemma update_nth_defined {A : Type} (l : list A) (i : nat) (v : A) :
  (i < length l)%nat -> exists l', update_nth l i v = Some l'.
Proof.
  revert i; induction l as [|h t IH]; intros i H; simpl in H; [lia|].
  destruct i as [|j]; simpl; [eauto|].
  destruct (IH j) as [t' E]; [lia|]. rewrite E; simpl; eauto.
Qed.

Lemma removeSource_head (srcs : list source_t) (srcs' : list source_t) :
  removeSource 0 srcs = Some srcs' -> srcs' = tl srcs /\ srcs <> [].
Proof.
  unfold removeSource; destruct srcs as [|s t]; simpl; [discriminate|].
  intros H; inversion H; split; [reflexivity|discriminate].
Qed.

Lemma removeSource_head_defined (srcs : list source_t) :
  srcs <> [] -> removeSource 0 srcs = Some (tl srcs).
Proof. destruct srcs; [congruence|reflexivity]. Qed.

(** ** The aging loop *)

Lemma age_loop_length (fuel i : nat) (srcs srcs' : list source_t) :
  age_loop fuel i srcs = Some srcs' -> (length srcs' <= length srcs)%nat.
Proof.
  revert i srcs; induction fuel as [|f IH]; intros i srcs; simpl.
  - destruct (nth_error srcs i); [discriminate|]. intros H; inversion H; lia.
  - destruct (nth_error srcs i) as [s|] eqn:En; [|intros H; inversion H; lia].
    destruct (age s =? LIFESPAN).
    + destruct (removeSource 0 srcs) as [r|] eqn:Er; simpl; [|discriminate].
      apply removeSource_head in Er; destruct Er as [-> _].
      intros H; apply IH in H. destruct srcs; simpl in *; lia.
    + destruct (update_nth srcs i (set_age s (age s + 1))) as [r|] eqn:Eu; simpl;
        [|discriminate].
      apply update_nth_length in Eu. intros H; apply IH in H. lia.
Qed.

(** The fuel that [age_sources] hands to the loop is enough. *)
Lemma age_loop_defined (fuel i : nat) (srcs : list source_t) :
  (length srcs <= i + fuel)%nat -> exists srcs', age_loop fuel i srcs = Some srcs'.
Proof.
  revert i srcs; induction fuel as [|f IH]; intros i srcs Hl; simpl.
  - destruct (nth_error srcs i) eqn:En; [|eauto].
    assert (nth_error srcs i <> None) as Hn by congruence.
    apply nth_error_Some in Hn; lia.
  - destruct (nth_error srcs i) as [s|] eqn:En; [|eauto].
    assert (nth_error srcs i <> None) as Hn by congruence.
    apply nth_error_Some in Hn.
    destruct (age s =? LIFESPAN).
    + rewrite removeSource_head_defined by (destruct srcs; simpl in *; [lia|discriminate]).
      simpl. apply IH. destruct srcs; simpl in *; lia.
    + destruct (update_nth_defined srcs i (set_age s (age s + 1)) Hn) as [r Er].
      rewrite Er; simpl. apply IH. apply update_nth_length in Er. lia.
Qed.

(** X4.  The aging loop comes to an end on every pool, within as many turns
    as the pool has sources, and it never makes the pool longer. *)
Lemma age_sources_defined (srcs : list source_t) :
  exists srcs', age_sources srcs = Some srcs' /\ (length srcs' <= length srcs)%nat.
Proof.
  destruct (age_loop_defined (length srcs) 0 srcs) as [r Hr]; [lia|].
  exists r; split; [exact Hr|]. eapply age_loop_length; exact Hr.
Qed.

(** ** The pool *)

Lemma spawn_sources (i : Z) (a : float) (p p' : plugin) :
  spawn i a p = Some p' ->
  layoutData p' = layoutData p /\
  exists s srcs,
    (if nSources p >=? MAX_SOURCES (layoutData p)
     then removeSource 0 (sources p) else Some (sources p)) = Some srcs /\
    sources p' = srcs ++ [s] /\ age s = 0.
Proof.
  unfold spawn. destruct (drand48 (rand48 p)) as [u seed'].
  destruct (int_of_float _) as [n1|]; simpl; [|discriminate].
  destruct (nth_Z _ n1) as [panel|]; simpl; [|discriminate].
  destruct (nth_Z _ i) as [c|]; simpl; [|discriminate].
  destruct (scale (RGB.R c) a) as [r|]; simpl; [|discriminate].
  destruct (scale (RGB.G c) a) as [g|]; simpl; [|discriminate].
  destruct (scale (RGB.B c) a) as [b|]; simpl; [|discriminate].
  unfold nSources; simpl.
  destruct (if _ >=? _ then _ else _) as [srcs|] eqn:E; simpl; [|discriminate].
  intros H; inversion H; subst; simpl. split; [reflexivity|].
  eexists _, srcs; repeat split; reflexivity.
Qed.

Lemma addSource_cases (i : Z) (a : float) (p p' : plugin) :
  addSource i a p = Some p' ->
  (nPanels (layoutData p) < 2 /\ p' = p) \/
  (2 <= nPanels (layoutData p) /\ spawn i a p = Some p').
Proof.
  unfold addSource. destruct (nPanels (layoutData p) <? 2) eqn:E.
  - apply Z.ltb_lt in E. intros H; injection H as <-. left; split; [exact E|reflexivity].
  - unfold SPAWN_AMOUNT; simpl. destruct (spawn i a p) as [q|]; simpl; [|discriminate].
    apply Z.ltb_ge in E. intros H; injection H as <-. right; split; [exact E|reflexivity].
Qed.

(** A spawn keeps the pool within its capacity, and at capacity it drops the
    entry at index 0 before it appends. *)
Lemma addSource_bound (i : Z) (a : float) (p p' : plugin) :
  nSources p <= MAX_SOURCES (layoutData p) ->
  addSource i a p = Some p' ->
  layoutData p' = layoutData p /\ nSources p' <= MAX_SOURCES (layoutData p').
Proof.
  intros Hinv H. apply addSource_cases in H. destruct H as [[_ ->]|[Hn H]]; [auto|].
  apply spawn_sources in H. destruct H as [Hl (s & srcs & Hs & Hp & _)].
  rewrite Hl; split; [reflexivity|].
  unfold nSources in *. rewrite Hp, length_app; simpl.
  destruct (Z.of_nat (length (sources p)) >=? MAX_SOURCES (layoutData p)) eqn:E.
  - apply removeSource_head in Hs. destruct Hs as [-> Hne].
    destruct (sources p); [congruence|simpl in *]. lia.
  - inversion Hs; subst. rewrite Z.geb_leb in E. apply Z.leb_gt in E. lia.
Qed.

Lemma pool_step_bound (op : pool_op) (p p' : plugin) :
  nSources p <= MAX_SOURCES (layoutData p) ->
  pool_step op p = Some p' ->
  layoutData p' = layoutData p /\ nSources p' <= MAX_SOURCES (layoutData p').
Proof.
  destruct op as [i a|]; simpl; [apply addSource_bound|].
  intros Hinv. unfold age_pool.
  destruct (age_sources (sources p)) as [r|] eqn:E; simpl; [|discriminate].
  intros H; inversion H; subst; simpl. split; [reflexivity|].
  apply age_loop_length in E. unfold nSources in *; simpl. lia.
Qed.

Lemma pool_run_bound (ops : list pool_op) (p p' : plugin) :
  nSources p <= MAX_SOURCES (layoutData p) ->
  pool_run ops p = Some p' ->
  layoutData p' = layoutData p /\ nSources p' <= MAX_SOURCES (layoutData p').
Proof.
  revert p; induction ops as [|op rest IH]; intros p Hinv; simpl.
  - intros H; inversion H; subst; auto.
  - destruct (pool_step op p) as [q|] eqn:E; simpl; [|discriminate].
    destruct (pool_step_bound op p q Hinv E) as [Hl Hq].
    intros H. destruct (IH q Hq H) as [Hl' Hq']. split; [congruence|exact Hq'].
Qed.

(** C1.  From an empty pool, whatever calls of [addSource] and whatever aging
    passes follow one another, the pool holds at most [MAX_SOURCES] sources;
    and a spawn that finds a pool at capacity, whatever state that is (in a
    layout of at least two panels, where spawns happen), drops the source at
    index 0 and appends the new one, so the size stays at capacity. *)
Theorem pool_never_exceeds_capacity (p : plugin) (ops : list pool_op) (p' : plugin) :
  sources p = [] ->
  pool_run ops p = Some p' ->
  nSources p' <= MAX_SOURCES (layoutData p') /\
  forall q i a q',
    nSources q = MAX_SOURCES (layoutData q) ->
    2 <= nPanels (layoutData q) ->
    addSource i a q = Some q' ->
    exists s, sources q' = tl (sources q) ++ [s] /\
              nSources q' = MAX_SOURCES (layoutData q').
Proof.
  intros Hempty Hrun.
  assert (nSources p <= MAX_SOURCES (layoutData p)) as Hinv.
  { unfold nSources, MAX_SOURCES, nPanels, LIFESPAN. rewrite Hempty; simpl. lia. }
  destruct (pool_run_bound ops p p' Hinv Hrun) as [_ Hb]. split; [exact Hb|].
  intros q i a q' Hfull Hpanels Hadd.
  apply addSource_cases in Hadd. destruct Hadd as [[Hlt _]|[_ Hsp]]; [lia|].
  apply spawn_sources in Hsp. destruct Hsp as [Hl (s & srcs & Hs & Hp & _)].
  replace (nSources q >=? MAX_SOURCES (layoutData q)) with true in Hs
    by (symmetry; rewrite Z.geb_leb; apply Z.leb_le; lia).
  apply removeSource_head in Hs. destruct Hs as [-> Hne].
  exists s; split; [exact Hp|].
  rewrite Hl, <- Hfull. unfold nSources. rewrite Hp, length_app; simpl.
  destruct (sources q); [congruence|simpl]. lia.
Qed.

Lemma pool_never_exceeds_capacity_witness :
  exists p' p'' s,
    pool_run [Spawn 0 f_one; Spawn 1 f_one; Spawn 0 f_one; Spawn 1 f_one]
             fresh_plugin = Some p' /\
    nSources p' <= MAX_SOURCES (layoutData p') /\
    nSources p' = MAX_SOURCES (layoutData p') /\
    addSource 1 f_one p' = Some p'' /\
    sources p'' = tl (sources p') ++ [s] /\
    nSources p'' = MAX_SOURCES (layoutData p'').
Proof.
  assert (pool_run [Spawn 0 f_one; Spawn 1 f_one; Spawn 0 f_one; Spawn 1 f_one]
                   fresh_plugin = Some _) as Erun by (vm_compute; reflexivity).
  destruct (pool_never_exceeds_capacity fresh_plugin _ _ eq_refl Erun) as [Hbound Hevict].
  match type of Erun with _ = Some ?q =>
    assert (addSource 1 f_one q = Some _) as Eadd by (vm_compute; reflexivity);
    destruct (Hevict q 1 f_one _ ltac:(vm_compute; reflexivity)
                     ltac:(vm_compute; discriminate) Eadd) as (s & Hs & Hn)
  end.
  eexists _, _, s. split; [exact Erun|]. split; [exact Hbound|].
  split; [vm_compute; reflexivity|]. split; [exact Eadd|]. split; [exact Hs|exact Hn].
Defined.

(** C8.  In a layout of fewer than two panels [addSource] returns at once:
    the state it hands back is the state it was given, whatever the palette
    index and the intensity. *)
Theorem addSource_too_few_panels (p : plugin) (paletteIndex : Z) (intensity : float) :
  nPanels (layoutData p) < 2 ->
  addSource paletteIndex intensity p = Some p.
Proof.
  intros H. unfold addSource. apply Z.ltb_lt in H. rewrite H. reflexivity.
Qed.

Lemma addSource_too_few_panels_witness :
  nPanels (layoutData lonely_plugin) < 2 /\
  addSource 7 f_one lonely_plugin = Some lonely_plugin.
Proof.
  split; [vm_compute; reflexivity|].
  apply (addSource_too_few_panels lonely_plugin 7 f_one). vm_compute; reflexivity.
Defined.

(** ** The warm-up *)

Lemma set_cnt_same (p : plugin) : set_cnt p (cnt p) = p.
Proof. destruct p; reflexivity. Qed.

Lemma frames_run_skips (lq : Z -> Z -> double) (calls : list (list Z)) (p : plugin)
      (frames : list Frame.t) (nFrames : Z) :
  cnt p + Z.of_nat (length calls) <= SKIP_COUNT ->
  frames_run lq calls p frames nFrames
  = Some (set_cnt p (cnt p + Z.of_nat (length calls)), frames, nFrames).
Proof.
  revert p; induction calls as [|fft rest IH]; intros p H.
  - simpl. rewrite Z.add_0_r, set_cnt_same. reflexivity.
  - cbn [frames_run]. unfold getPluginFrame.
    replace (cnt p <? SKIP_COUNT) with true
      by (symmetry; apply Z.ltb_lt; cbn [length] in H; lia).
    cbn [bind]. rewrite IH by (cbn [length] in H; simpl; lia).
    destruct p; simpl. do 3 f_equal.
    unfold set_cnt; simpl. f_equal. lia.
Qed.

Lemma initPlugin_fields (layout : LayoutData) (palette : list RGB.t)
      (raw_bins : nat -> freq_bin) (seed : Z) (p : plugin) :
  initPlugin layout palette raw_bins seed = Some p ->
  cnt p = 0 /\ sources p = [] /\ layoutData p = layout /\ palettenColors p = palette /\
  nColors p = (if Z.of_nat (length palette) >? MAX_PALETTE_nColors layout
               then MAX_PALETTE_nColors layout else Z.of_nat (length palette)) /\
  0 <= MAX_PALETTE_nColors layout.
Proof.
  unfold initPlugin.
  destruct (MAX_SOURCES layout <? 0); simpl; [discriminate|].
  unfold new_array. destruct (MAX_PALETTE_nColors layout <? 0) eqn:E; simpl; [discriminate|].
  apply Z.ltb_ge in E.
  intros H; inversion H; subst; simpl. repeat split; auto.
Qed.

(** C10.  Each of the first 50 calls of [getPluginFrame] after the
    initialisation returns early: the buffer [frames] and the cell [*nFrames]
    are handed back as they were given, and the state differs from the
    initial one in the skip counter only. *)
Theorem warm_up_frames_skip (lq : Z -> Z -> double)
        (layout : LayoutData) (palette : list RGB.t) (raw_bins : nat -> freq_bin)
        (seed : Z) (p : plugin)
        (calls : list (list Z)) (frames : list Frame.t) (nFrames : Z) :
  initPlugin layout palette raw_bins seed = Some p ->
  (length calls <= 50)%nat ->
  frames_run lq calls p frames nFrames
  = Some (set_cnt p (Z.of_nat (length calls)), frames, nFrames).
Proof.
  intros Hinit Hlen. apply initPlugin_fields in Hinit. destruct Hinit as [Hc _].
  rewrite frames_run_skips by (rewrite Hc; unfold SKIP_COUNT; lia).
  rewrite Hc. reflexivity.
Qed.

Lemma warm_up_frames_skip_witness :
  frames_run unit_quotient (repeat [200; 17] 50) fresh_plugin
             (repeat black_frame 4) 0
  = Some (set_cnt fresh_plugin 50, repeat black_frame 4, 0).
Proof.
  apply (warm_up_frames_skip unit_quotient four_panels red_green
           (fun _ => blank_bin) default_seed fresh_plugin
           (repeat [200; 17] 50) (repeat black_frame 4) 0).
  - vm_compute; reflexivity.
  - vm_compute; lia.
Defined.

(** ** The latest minimum *)

(** C5, as the code has it.  Across one call of [beat_detector] the latest
    minimum rises only by being set to the sound power of the call; when it
    falls, it either falls to that sound power (a sample below the floor
    pulls the floor down to it, by any amount) or it falls by exactly 1. *)
Theorem latest_minimum_moves (b b' : freq_bin) (beat : Z) :
  beat_detector b = Some (b', beat) ->
  (latest_minimum b < latest_minimum b' -> latest_minimum b' = soundPower b) /\
  (latest_minimum b' < latest_minimum b ->
   latest_minimum b' = soundPower b \/ latest_minimum b' = latest_minimum b - 1).
Proof.
  unfold beat_detector.
  destruct (if _ && _ then _ else _) as [rm|]; cbn [bind]; [|discriminate].
  intros H; injection H as <- _; cbn [latest_minimum].
  destruct (trigger _ _ rm); [split; auto|].
  destruct (soundPower b <? latest_minimum b) eqn:E1; [split; auto|].
  destruct (latest_minimum b >? 0) eqn:E2; split; intros; auto; lia.
Qed.

Lemma latest_minimum_moves_witness :
  exists b' beat,
    beat_detector (mk_bin 7 20 0 50 0 1 20 20) = Some (b', beat) /\
    latest_minimum b' = 7 - 1.
Proof.
  eexists _, _; split; [vm_compute; reflexivity|].
  destruct (latest_minimum_moves (mk_bin 7 20 0 50 0 1 20 20)
              (mk_bin 6 20 0 50 0 1 20 20) 0) as [_ H]; [vm_compute; reflexivity|].
  destruct H as [H|H]; [vm_compute; reflexivity|discriminate H|exact H].
Defined.

(** C5, as the claim has it, fails: a sample of 10 under a floor of 100 takes
    the floor down by 90 in one call. *)
Lemma latest_minimum_drops_by_ninety :
  exists b' beat,
    beat_detector loud_then_quiet_bin = Some (b', beat) /\
    latest_minimum b' = 10 /\
    ~ (latest_minimum loud_then_quiet_bin - latest_minimum b' <= 1).
Proof.
  eexists _, _; split; [vm_compute; reflexivity|].
  split; [reflexivity|]. vm_compute. intros H; apply H; reflexivity.
Qed.

(** ** Aging *)

(** C3 at a failing input.  Four panels, two colours, an empty pool.  Tick 0
    spawns a red source, tick 1 a green one, tick 2 nothing.  In the aging
    pass of tick 1 the red source is due and index 0 is removed, and the turn
    that would have aged the green source is skipped, so the green source is
    still of age 0 when tick 2 begins: at the end of tick 2, one full lifespan
    after its spawn, it is still in the pool.  It goes in tick 3. *)
Theorem green_source_outlives_lifespan :
  (exists p1 s, pool_run (tick [(0, f_one)] ++ tick [(1, f_one)]) fresh_plugin = Some p1 /\
                sources p1 = [s] /\ G s = 255 /\ age s = 0) /\
  (exists p2 s, pool_run two_beats_then_silence fresh_plugin = Some p2 /\
                sources p2 = [s] /\ G s = 255 /\ age s = 1) /\
  (exists p3, pool_run (two_beats_then_silence ++ tick []) fresh_plugin = Some p3 /\
              sources p3 = []).
Proof.
  split; [|split].
  - eexists _, _; split; [vm_compute; reflexivity|]. repeat split.
  - eexists _, _; split; [vm_compute; reflexivity|]. repeat split.
  - eexists; split; [vm_compute; reflexivity|]. reflexivity.
Qed.

(** The source of a lone beat does go after one lifespan. *)
Lemma lone_source_ages_out :
  (exists p0 s, pool_run (tick [(0, f_one)]) fresh_plugin = Some p0 /\
                sources p0 = [s] /\ age s = 1) /\
  (exists p1, pool_run (tick [(0, f_one)] ++ tick []) fresh_plugin = Some p1 /\
              sources p1 = []).
Proof.
  split.
  - eexists _, _; split; [vm_compute; reflexivity|]. repeat split.
  - eexists; split; [vm_compute; reflexivity|]. reflexivity.
Qed.

(** ** Initialisation *)

(** C9 at a failing input.  With one panel and an empty palette the size of
    the array of bins, [nPanels - 2], is negative and its allocation throws,
    whatever the fresh memory and the seed. *)
Theorem initPlugin_fails_on_one_panel (raw_bins : nat -> freq_bin) (seed : Z) :
  initPlugin one_panel [] raw_bins seed = None.
Proof. reflexivity. Qed.

(** What C9 says of [nColors] holds of every initialisation that completes. *)
Lemma initPlugin_nColors (layout : LayoutData) (palette : list RGB.t)
      (raw_bins : nat -> freq_bin) (seed : Z) (p : plugin) :
  initPlugin layout palette raw_bins seed = Some p ->
  (Z.of_nat (length palette) > nPanels layout - 2 -> nColors p = nPanels layout - 2) /\
  (Z.of_nat (length palette) <= nPanels layout - 2 -> nColors p = Z.of_nat (length palette)).
Proof.
  intros H. apply initPlugin_fields in H. destruct H as (_ & _ & _ & _ & Hn & _).
  unfold MAX_PALETTE_nColors in Hn.
  destruct (Z.of_nat (length palette) >? nPanels layout - 2) eqn:E.
  - split; intros; [exact Hn|]. apply Z.gtb_lt in E. lia.
  - split; intros; [|exact Hn]. rewrite Z.gtb_ltb in E. apply Z.ltb_ge in E. lia.
Qed.

(** It completes as soon as there are two panels. *)
Lemma initPlugin_defined (layout : LayoutData) (palette : list RGB.t)
      (raw_bins : nat -> freq_bin) (seed : Z) :
  2 <= nPanels layout -> exists p, initPlugin layout palette raw_bins seed = Some p.
Proof.
  intros H. unfold initPlugin, new_array, MAX_SOURCES, MAX_PALETTE_nColors, LIFESPAN.
  replace (nPanels layout * 1 <? 0) with false by (symmetry; apply Z.ltb_ge; lia).
  replace (nPanels layout - 2 <? 0) with false by (symmetry; apply Z.ltb_ge; lia).
  simpl. eauto.
Qed.

(** ** Checking a range value by value *)

Lemma Zrange_In (n : nat) (lo z : Z) :
  lo <= z < lo + Z.of_nat n -> In z (Zrange lo n).
Proof.
  revert lo; induction n as [|k IH]; intros lo H; simpl; [lia|].
  destruct (Z.eq_dec lo z) as [->|Hne]; [left; reflexivity|].
  right; apply IH; lia.
Qed.

Lemma Zrange_forallb (f : Z -> bool) (lo : Z) (n : nat) :
  forallb f (Zrange lo n) = true ->
  forall z, lo <= z < lo + Z.of_nat n -> f z = true.
Proof.
  intros H z Hz. rewrite forallb_forall in H. apply H, Zrange_In, Hz.
Qed.

Lemma forallb_over_map {A B : Type} (f : B -> bool) (g : A -> B) (l : list A) :
  forallb f (map g l) = forallb (fun a => f (g a)) l.
Proof. induction l as [|a l IH]; simpl; [reflexivity|]. rewrite IH; reflexivity. Qed.

(** ** Compositing *)









Lemma fold_left_cons {A B : Type} (f : A -> B -> A) (b : B) (l : list B) (a : A) :
  fold_left f (b :: l) a = fold_left f l (f a b).
Proof. reflexivity. Qed.





(** ** The running maximum *)

Lemma addToRunningMax_4 (c s : Z) :
  addToRunningMax c s 4
  = int_of_float (fadd (keep c) (if s >? c then gain s 2 else gain s 4)).
Proof. unfold addToRunningMax, keep, gain. destruct (s >? c); reflexivity. Qed.

Lemma running_max_table_checked : running_max_table_ok 512 256 = true.
Proof. vm_compute. reflexivity. Qed.

Lemma running_max_table_sound (nc ns : nat) :
  running_max_table_ok nc ns = true ->
  forall c s, 0 <= c < Z.of_nat nc -> 0 <= s < Z.of_nat ns ->
  addToRunningMax c s 4 = Some (blended_max c s).
Proof.
  intros Htab c s Hc Hs. unfold running_max_table_ok in Htab.
  pose proof (Zrange_forallb _ 0 nc Htab c ltac:(lia)) as Hrow. cbv beta in Hrow.
  rewrite forallb_over_map in Hrow.
  pose proof (Zrange_forallb _ 0 ns Hrow s ltac:(lia)) as H. cbv beta in H.
  unfold running_max_row_ok in H. rewrite addToRunningMax_4.
  destruct (s >? c);
    (destruct (int_of_float _) as [r|];
     [f_equal; apply Z.eqb_eq, H | discriminate H]).
Qed.

Lemma running_max_table :
  forall c s, 0 <= c <= 511 -> 0 <= s <= 255 ->
  addToRunningMax c s 4 = Some (blended_max c s).
Proof.
  intros c s Hc Hs.
  apply (running_max_table_sound 512 256 running_max_table_checked); lia.
Qed.





(** Beyond the trail of 4 neither the value nor its integral part is what the
    function returns: the [float] quotient by 3 is rounded, and a trail of 0
    leaves the conversion to [int] undefined. *)
Lemma addToRunningMax_other_trails :
  addToRunningMax 4 1 3 = Some 2 /\
  (running_max_formula 4 1 3 == inject_Z 3)%Q /\
  addToRunningMax 1 1 0 = None.
Proof. repeat split; vm_compute; reflexivity. Qed.

(** ** The beat criterion *)

Lemma skipn_Zrange (m n : nat) (lo : Z) :
  skipn m (Zrange lo n) = Zrange (lo + Z.of_nat m) (n - m).
Proof.
  revert n lo; induction m as [|m IH]; intros n lo.
  - rewrite Nat.sub_0_r, Z.add_0_r. reflexivity.
  - destruct n as [|n]; [reflexivity|].
    cbn [Zrange skipn Nat.sub]. rewrite IH. f_equal. lia.
Qed.

Lemma beat_walk_spec (t : double) (n : nat) :
  forall (k : nat) (lm0 s0 : Z),
    beat_walk_ok t (map (fun lm => double_of_int (decayed lm)) (Zrange lm0 n))
                 (map double_of_int (Zrange (s0 - 1) k)) = true ->
    forall j, 0 <= j < Z.of_nat n -> j + 1 < Z.of_nat k ->
      exceeds (double_of_int (s0 + j)) (double_of_int (decayed (lm0 + j))) t = true /\
      exceeds (double_of_int (s0 + j)) (double_of_int (s0 + j - 1)) t = false.
Proof.
  induction n as [|n IH]; intros k lm0 s0 H j Hj Hk; [simpl in Hj; lia|].
  destruct k as [|[|k]]; [simpl in Hk; lia|simpl in Hk; lia|].
  cbn [Zrange map beat_walk_ok] in H.
  replace (s0 - 1 + 1) with s0 in H by lia.
  apply andb_prop in H. destruct H as [H Hrest].
  apply andb_prop in H. destruct H as [Ha Hb].
  apply negb_true_iff in Hb.
  destruct (Z.eq_dec j 0) as [->|Hne].
  - rewrite !Z.add_0_r. split; assumption.
  - specialize (IH (S k) (lm0 + 1) (s0 + 1)).
    replace (s0 + 1 - 1) with s0 in IH by lia.
    specialize (IH Hrest (j - 1) ltac:(lia) ltac:(lia)).
    replace (s0 + 1 + (j - 1)) with (s0 + j) in IH by lia.
    replace (lm0 + 1 + (j - 1)) with (lm0 + j) in IH by lia.
    exact IH.
Qed.

Lemma beat_table_checked : beat_table_ok = true.
Proof. vm_compute. reflexivity. Qed.

Lemma beat_rows_256_364 : beat_rows_ok 256 364 = beat_table_ok.
Proof. vm_compute. reflexivity. Qed.

Lemma beat_rows_sound (n m : nat) :
  beat_rows_ok n m = true ->
  forall lm rm,
    0 <= lm -> 2 <= rm < 2 + Z.of_nat m -> held_power lm rm < Z.of_nat n ->
    trigger (held_power lm rm) (decayed lm) rm = true /\
    trigger (held_power lm rm) (held_power lm rm - 1) rm = false.
Proof.
  intros Htab lm rm Hlm Hrm Hs. unfold held_power in Hs. unfold beat_rows_ok in Htab.
  assert (0 <= 7 * rm / 10) as Hq0 by (apply Z.div_pos; lia).
  pose proof (Zrange_forallb _ 2 m Htab rm ltac:(lia)) as Hrow. cbv beta in Hrow.
  rewrite skipn_map, skipn_Zrange in Hrow.
  replace (0 + Z.of_nat (Z.to_nat (held_power 0 rm - 1))) with (held_power 0 rm - 1)
    in Hrow by (unfold held_power; lia).
  pose proof (beat_walk_spec _ _ _ 0 (held_power 0 rm) Hrow lm) as H.
  replace (held_power 0 rm + lm) with (held_power lm rm) in H by (unfold held_power; lia).
  rewrite Z.add_0_l in H.
  apply H; [lia|]. unfold held_power. lia.
Qed.

(** The criterion at the held power: it holds over the decayed floor, and it
    fails once the floor has been raised to the held power and has decayed by
    one. *)
Lemma beat_table (lm rm : Z) :
  0 <= lm -> 2 <= rm -> held_power lm rm <= 255 ->
  trigger (held_power lm rm) (decayed lm) rm = true /\
  trigger (held_power lm rm) (held_power lm rm - 1) rm = false.
Proof.
  intros Hlm Hrm Hs.
  assert (rm <= 365) as Hrm'.
  { unfold held_power in Hs.
    assert (0 <= 7 * rm / 10) by (apply Z.div_pos; lia).
    destruct (Z_le_gt_dec rm 365) as [|Hgt]; [assumption|].
    assert (255 <= 7 * rm / 10) by (apply Z.div_le_lower_bound; lia). lia. }
  apply (beat_rows_sound 256 364 (eq_trans beat_rows_256_364 beat_table_checked)); lia.
Qed.

Lemma local_maximum_absent (sp rm prev sprev : Z) :
  0 <= sp -> 0 <= rm -> sp + rm / 4 < 2 ^ 32 -> prev <= sp ->
  (CInt.u32 (sp + rm / 4) <? prev) && (prev >? sprev) = false.
Proof.
  intros Hsp Hrm Hsmall Hprev.
  assert (0 <= rm / 4) by (apply Z.div_pos; lia).
  unfold CInt.u32. rewrite Z.mod_small by lia.
  replace (sp + rm / 4 <? prev) with false by (symmetry; apply Z.ltb_ge; lia).
  reflexivity.
Qed.

(** C2, as the code has it.  Take a bin whose running maximum is at least 2
    and whose previous sample is not above the sound power
    [latestMinimum + runningMax*0.7 + 1] (the product cut down to an integer,
    the sum a byte) at which it is now held.  The first call of
    [beat_detector] returns a beat and sets the latest minimum to that sound
    power; the call of the next tick, at the same sound power, returns no
    beat. *)
Theorem beat_then_quiet (b : freq_bin) (s : Z) :
  0 <= latest_minimum b ->
  2 <= runningMax b ->
  s = held_power (latest_minimum b) (runningMax b) ->
  s <= 255 ->
  previousPower b <= s ->
  exists b1 b2,
    beat_detector (set_soundPower b s) = Some (b1, 1) /\
    latest_minimum b1 = s /\
    beat_detector (set_soundPower b1 s) = Some (b2, 0).
Proof.
  intros Hlm Hrm Hs Hbyte Hprev.
  assert (0 <= 7 * runningMax b / 10) as Hq0 by (apply Z.div_pos; lia).
  assert (latest_minimum b < s) as Hlt by (rewrite Hs; unfold held_power; lia).
  assert (runningMax b <= 365) as Hrm'.
  { destruct (Z_le_gt_dec (runningMax b) 365) as [|Hgt]; [assumption|].
    assert (255 <= 7 * runningMax b / 10) by (apply Z.div_le_lower_bound; lia).
    rewrite Hs in Hbyte; unfold held_power in Hbyte. lia. }
  assert (runningMax b / 4 <= 100) as Hq4 by (apply Z.div_le_upper_bound; lia).
  destruct (beat_table (latest_minimum b) (runningMax b) Hlm Hrm) as [Hfire Hquiet];
    [rewrite <- Hs; exact Hbyte|].
  rewrite <- Hs in Hfire, Hquiet.
  eexists _, _. split; [|split].
  - unfold beat_detector. cbn [set_soundPower soundPower previousPower runningMax
                               secondPreviousPower latest_minimum].
    rewrite local_maximum_absent by lia. cbn [bind].
    replace (s <? latest_minimum b) with false by (symmetry; apply Z.ltb_ge; lia).
    fold (decayed (latest_minimum b)). rewrite Hfire. reflexivity.
  - reflexivity.
  - unfold beat_detector. cbn [set_soundPower soundPower previousPower runningMax
                               secondPreviousPower latest_minimum].
    rewrite local_maximum_absent by lia. cbn [bind].
    rewrite Z.ltb_irrefl.
    replace (s >? 0) with true by (symmetry; apply Z.gtb_lt; lia).
    rewrite Hquiet. reflexivity.
Qed.

Lemma beat_then_quiet_witness :
  exists b1 b2,
    beat_detector (set_soundPower default_bin 36) = Some (b1, 1) /\
    latest_minimum b1 = 36 /\
    beat_detector (set_soundPower b1 36) = Some (b2, 0).
Proof.
  apply (beat_then_quiet default_bin 36).
  - vm_compute; discriminate.
  - vm_compute; discriminate.
  - reflexivity.
  - lia.
  - vm_compute; discriminate.
Defined.

(** C2, as the claim has it, fails when the running maximum is below 2.
    With a running maximum of 0 the held power is [latestMinimum + 1]; the
    beat of the first tick raises the floor to it, the floor decays by one,
    and the second tick beats again.  A running maximum of 1 does the same,
    and the bin that [initPlugin] sets up gets there on fading peaks. *)
Lemma beat_fires_twice_under_low_running_max :
  (held_power (latest_minimum flat_bin) (runningMax flat_bin) = 1 /\
   exists b1 b2,
     beat_detector (set_soundPower flat_bin 1) = Some (b1, 1) /\
     latest_minimum b1 = 1 /\
     beat_detector (set_soundPower b1 1) = Some (b2, 1)) /\
  (exists b, feed fading_peaks default_bin = Some b /\
     runningMax b = 1 /\
     held_power (latest_minimum b) (runningMax b) = 1 /\
     exists b1 b2,
       beat_detector (set_soundPower b 1) = Some (b1, 1) /\
       latest_minimum b1 = 1 /\
       beat_detector (set_soundPower b1 1) = Some (b2, 1)).
Proof.
  split.
  - split; [reflexivity|]. eexists _, _. split; [vm_compute; reflexivity|].
    split; [reflexivity|vm_compute; reflexivity].
  - eexists. split; [vm_compute; reflexivity|]. split; [reflexivity|].
    split; [reflexivity|]. eexists _, _. split; [vm_compute; reflexivity|].
    split; [reflexivity|vm_compute; reflexivity].
Qed.

(** ** The intensity of a beat *)

(** X19.  Part of C7 that needs nothing of [log]: when the sound power or the
    running maximum is at most 1 the intensity is 1.0, whatever the quotient
    of logarithms would have been. *)
Lemma beat_intensity_degenerate (lq : Z -> Z -> double) (b : freq_bin) :
  soundPower b <= 1 \/ runningMax b <= 1 ->
  beat_intensity lq b = f_one.
Proof.
  intros H. unfold beat_intensity.
  replace ((soundPower b >? 1) && (runningMax b >? 1)) with false; [reflexivity|].
  symmetry. apply andb_false_iff.
  destruct H as [H|H]; [left|right]; rewrite Z.gtb_ltb; apply Z.ltb_ge; exact H.
Qed.

(** ** A palette without colours *)

Lemma update_Z_defined {A : Type} (l : list A) (i : nat) (v : A) :
  (i < length l)%nat ->
  exists l', update_Z l (Z.of_nat i) v = Some l' /\ length l' = length l.
Proof.
  intros H. unfold update_Z.
  replace (Z.of_nat i <? 0) with false by (symmetry; apply Z.ltb_ge; lia).
  rewrite Nat2Z.id. destruct (update_nth_defined l i v H) as [l' E].
  exists l'; split; [exact E|]. eapply update_nth_length; exact E.
Qed.

Lemma render_loop_empty (p : plugin) (n : nat) :
  sources p = [] ->
  forall (i : nat) (frames : list Frame.t),
    (i + n <= length (panels (layoutData p)))%nat ->
    (length (panels (layoutData p)) <= length frames)%nat ->
    exists frames',
      for_loop n (Z.of_nat i) (render_into p) frames = Some frames' /\
      length frames' = length frames.
Proof.
  intros Hs. induction n as [|n IH]; intros i frames Hi Hf; [simpl; eauto|].
  cbn [for_loop]. unfold render_into at 1. unfold nth_Z.
  replace (Z.of_nat i <? 0) with false by (symmetry; apply Z.ltb_ge; lia).
  rewrite Nat2Z.id.
  destruct (nth_error (panels (layoutData p)) i) as [panel|] eqn:En.
  2: { apply nth_error_None in En. lia. }
  cbn [bind]. rewrite Hs.
  change (renderPanel panel []) with (Some (0, 0, 0)). cbn [bind].
  destruct (update_Z_defined frames i
              (Frame.mk (panelId panel) 0 0 0 TRANSITION_TIME) ltac:(lia)) as (fr & E & Hl).
  rewrite E. cbn [bind].
  replace (Z.of_nat i + 1) with (Z.of_nat (S i)) by lia.
  destruct (IH (S i) fr ltac:(lia) ltac:(lia)) as (fr' & E' & Hl').
  exists fr'; split; [exact E'|lia].
Qed.

Lemma getPluginFrame_no_colours (lq : Z -> Z -> double) (fft : list Z) (p : plugin)
      (frames : list Frame.t) (nFrames : Z) :
  nColors p = 0 -> sources p = [] ->
  (length (panels (layoutData p)) <= length frames)%nat ->
  exists p' frames' nFrames',
    getPluginFrame lq fft p frames nFrames = Some (p', frames', nFrames') /\
    nColors p' = 0 /\ sources p' = [] /\ layoutData p' = layoutData p /\
    length frames' = length frames.
Proof.
  intros Hn Hs Hf. unfold getPluginFrame. destruct (cnt p <? SKIP_COUNT).
  - eexists _, _, _; split; [reflexivity|]. simpl. auto.
  - rewrite Hn. cbn [Z.to_nat for_loop bind].
    destruct (render_loop_empty p (length (panels (layoutData p))) Hs 0 frames
                ltac:(lia) Hf) as (fr & E & Hl).
    change (Z.of_nat 0) with 0 in E. rewrite E. cbn [bind].
    rewrite Hs. cbn [age_sources age_loop length nth_error bind].
    eexists _, _, _; split; [reflexivity|]. simpl. auto.
Qed.

(** X15.  The part of C9 that holds: once the initialisation has completed, a
    palette without colours makes every call of [getPluginFrame] succeed and
    leaves the pool empty. *)
Lemma no_colours_no_sources (lq : Z -> Z -> double) (layout : LayoutData)
      (raw_bins : nat -> freq_bin) (seed : Z) (p : plugin) (calls : list (list Z)) :
  initPlugin layout [] raw_bins seed = Some p ->
  forall (frames : list Frame.t) (nFrames : Z),
    (length (panels layout) <= length frames)%nat ->
    exists p' frames' nFrames',
      frames_run lq calls p frames nFrames = Some (p', frames', nFrames') /\
      sources p' = [].
Proof.
  intros Hinit. apply initPlugin_fields in Hinit.
  destruct Hinit as (_ & Hs & Hl & _ & Hn & Hcap).
  assert (nColors p = 0) as Hn0.
  { rewrite Hn. cbn [length Z.of_nat].
    replace (0 >? MAX_PALETTE_nColors layout) with false; [reflexivity|].
    symmetry. rewrite Z.gtb_ltb. apply Z.ltb_ge. exact Hcap. }
  clear Hn Hcap. rewrite <- Hl. clear Hl.
  revert p Hs Hn0. induction calls as [|fft rest IH]; intros p Hs Hn0 frames nFrames Hf.
  - eexists _, _, _; split; [reflexivity|exact Hs].
  - cbn [frames_run].
    destruct (getPluginFrame_no_colours lq fft p frames nFrames Hn0 Hs Hf)
      as (q & fr & nf & E & Hqn & Hqs & Hql & Hfl).
    rewrite E. cbn [bind]. apply IH; [exact Hqs|exact Hqn|]. rewrite Hql, Hfl. exact Hf.
Qed.

(** * Further properties of the code *)

(** ** Signs in the beat criterion *)

Lemma binary_round_aux_not_negative (prec emax : Z) (m e : Z) (l : location) :
  not_negative (binary_round_aux prec emax false m e l) = true.
Proof.
  unfold binary_round_aux.
  destruct (shr_fexp prec emax m e l) as [mrs' e'].
  destruct (shr_fexp prec emax _ e' loc_Exact) as [mrs'' e''].
  destruct (shr_m mrs'') as [|p|p]; [reflexivity| |reflexivity].
  destruct (e'' <=? emax - prec); reflexivity.
Qed.

Lemma binary_round_not_negative (prec emax : Z) (m : positive) (e : Z) :
  not_negative (binary_round prec emax false m e) = true.
Proof.
  unfold binary_round. destruct (shl_align m e _) as [mz ez].
  apply binary_round_aux_not_negative.
Qed.

Lemma double_of_int_not_negative (z : Z) :
  0 <= z -> not_negative (double_of_int z) = true.
Proof.
  intros Hz. unfold double_of_int, binary_normalize.
  destruct z as [|p|p]; [reflexivity|apply binary_round_not_negative|lia].
Qed.

Lemma dmul_not_negative (v w : double) :
  not_negative v = true -> not_negative w = true -> not_negative (dmul v w) = true.
Proof.
  destruct v as [sv|sv| |sv mv ev], w as [sw|sw| |sw mw ew];
    try destruct sv; try destruct sw; simpl; intros Hv Hw;
    try reflexivity; try discriminate.
  apply binary_round_aux_not_negative.
Qed.

Lemma dadd_not_negative (v w : double) :
  not_negative v = true -> not_negative w = true -> not_negative (dadd v w) = true.
Proof.
  destruct v as [sv|sv| |sv mv ev], w as [sw|sw| |sw mw ew];
    try destruct sv; try destruct sw; simpl; intros Hv Hw;
    try reflexivity; try discriminate.
  unfold dadd, SFadd, binary_normalize, cond_Zopp.
  cbn [Z.add]. apply binary_round_not_negative.
Qed.

Lemma not_below_zero (v : double) :
  not_negative v = true -> SFltb v (double_of_int 0) = false.
Proof.
  destruct v as [sv|sv| |sv mv ev]; try destruct sv; simpl; intros H;
    try reflexivity; discriminate.
Qed.

(** The criterion never holds for a sample of 0. *)
Lemma trigger_silent (lm rm : Z) : 0 <= lm -> 0 <= rm -> trigger 0 lm rm = false.
Proof.
  intros Hlm Hrm. unfold trigger. apply not_below_zero, dadd_not_negative.
  - apply double_of_int_not_negative, Hlm.
  - apply dmul_not_negative; [apply double_of_int_not_negative, Hrm|reflexivity].
Qed.

(** X1.  Silence never beats: on a sample of 0 [beat_detector] reports no beat
    and leaves the latest minimum at 0, whatever the history of the bin. *)
Theorem silence_never_beats (b b' : freq_bin) (beat : Z) :
  soundPower b = 0 ->
  0 <= latest_minimum b ->
  0 <= runningMax b ->
  beat_detector b = Some (b', beat) ->
  beat = 0 /\ latest_minimum b' = 0.
Proof.
  intros Hsp Hlm Hrm. unfold beat_detector. rewrite Hsp.
  destruct (if _ && _ then _ else _) as [rm|] eqn:E; cbn [bind]; [|discriminate].
  assert (0 <= rm) as Hrm'.
  { destruct (_ && _).
    - destruct (addToRunningMax _ _ 4) as [r|]; cbn [bind] in E; [|discriminate].
      injection E as <-. unfold CInt.u32. apply Z.mod_pos_bound. reflexivity.
    - injection E as <-. exact Hrm. }
  assert ((if 0 <? latest_minimum b then 0
           else if latest_minimum b >? 0 then latest_minimum b - 1
                else latest_minimum b) = 0) as Hfloor.
  { destruct (0 <? latest_minimum b) eqn:E1; [reflexivity|].
    apply Z.ltb_ge in E1.
    replace (latest_minimum b >? 0) with false by (symmetry; rewrite Z.gtb_ltb; apply Z.ltb_ge; lia).
    lia. }
  rewrite Hfloor, (trigger_silent 0 rm) by lia.
  intros H; injection H as <- <-. split; reflexivity.
Qed.

Lemma silence_never_beats_witness :
  exists b', beat_detector (mk_bin 90 0 0 50 0 1 200 10) = Some (b', 0) /\
             latest_minimum b' = 0.
Proof.
  eexists; split; [vm_compute; reflexivity|].
  eapply (silence_never_beats (mk_bin 90 0 0 50 0 1 200 10) _ 0);
    [reflexivity|vm_compute; discriminate|vm_compute; discriminate|vm_compute; reflexivity].
Defined.

(** ** Byte-range samples *)

Lemma to_int_small (z : Z) : 0 <= z < 2 ^ 31 -> CInt.to_int z = z.
Proof.
  intros H. unfold CInt.to_int, CInt.u32.
  rewrite Z.mod_small by (split; [lia|]; apply Z.lt_trans with (2 ^ 31); [lia|reflexivity]).
  replace (z <? 2 ^ 31) with true by (symmetry; apply Z.ltb_lt; lia). reflexivity.
Qed.

Lemma blended_max_bounds (c s : Z) :
  1 <= c <= 510 -> 1 <= s <= 255 -> 1 <= blended_max c s <= 510.
Proof.
  intros Hc Hs. unfold blended_max.
  destruct (s >? c); rewrite Z.quot_div_nonneg by lia; split;
    try (apply Z.div_le_lower_bound; lia); apply Z.div_le_upper_bound; lia.
Qed.

(** One call on a byte-range sample: the detector is defined and keeps the
    bin within bounds. *)
Lemma beat_detector_on_bytes (b : freq_bin) (sp : Z) :
  byte_bin b ->
  byte sp ->
  exists b' beat,
    beat_detector (set_soundPower b sp) = Some (b', beat) /\
    byte_bin b' /\ soundPower b' = sp /\ (beat = 0 \/ beat = 1).
Proof.
  intros (Hlm & Hrm & Hprev & Hsprev) Hsp. unfold byte in Hsp.
  unfold beat_detector.
  cbn [set_soundPower soundPower previousPower runningMax secondPreviousPower
       latest_minimum colour runningMin maximumTrigger].
  assert (exists rm,
             (if (CInt.u32 (sp + runningMax b / 4) <? previousPower b)
                 && (previousPower b >? secondPreviousPower b)
              then r <- addToRunningMax (CInt.to_int (runningMax b))
                                        (CInt.to_int (previousPower b)) 4 ;;
                   Some (CInt.u32 r)
              else Some (runningMax b)) = Some rm /\ 1 <= rm <= 510) as (rm & -> & Hrm').
  { destruct (_ <? _); cbn [andb]; [|eauto].
    destruct (previousPower b >? secondPreviousPower b) eqn:E; [|eauto].
    apply Z.gtb_lt in E.
    rewrite !to_int_small by (split; [lia|]; apply Z.le_lt_trans with 510; [lia|reflexivity]).
    rewrite running_max_table by lia. cbn [bind].
    pose proof (blended_max_bounds (runningMax b) (previousPower b)
                  ltac:(lia) ltac:(lia)) as Hb.
    exists (blended_max (runningMax b) (previousPower b)); split; [|exact Hb].
    f_equal. unfold CInt.u32. apply Z.mod_small.
    split; [lia|]. apply Z.le_lt_trans with 510; [lia|reflexivity]. }
  cbn [bind].
  eexists _, _. split; [reflexivity|].
  split; [|split; [reflexivity|destruct (trigger _ _ rm); auto]].
  unfold byte_bin. cbn [latest_minimum runningMax previousPower secondPreviousPower].
  repeat split; try lia;
    destruct (trigger _ _ rm); try lia;
    destruct (sp <? latest_minimum b); try lia;
    destruct (latest_minimum b >? 0) eqn:E; try lia;
    apply Z.gtb_lt in E; lia.
Qed.

(** X2.  With byte-range samples the detector is always defined and keeps the
    bin within bounds, call after call: the floor and the two history fields
    stay bytes and the running maximum stays within 1..510, so that no
    conversion in [addToRunningMax] is ever undefined. *)
Theorem feed_keeps_bytes (samples : list Z) (b : freq_bin) :
  byte_bin b ->
  Forall byte samples ->
  exists b', feed samples b = Some b' /\ byte_bin b'.
Proof.
  revert b; induction samples as [|sp rest IH]; intros b Hb Hs.
  - exists b; split; [reflexivity|exact Hb].
  - inversion Hs as [|? ? Hsp Hrest]; subst. cbn [feed].
    destruct (beat_detector_on_bytes b sp Hb Hsp) as (b' & beat & E & Hb' & _).
    rewrite E. cbn [bind]. apply IH; assumption.
Qed.

Lemma feed_keeps_bytes_witness :
  exists b', feed fading_peaks default_bin = Some b' /\ byte_bin b'.
Proof.
  apply (feed_keeps_bytes fading_peaks default_bin).
  - unfold byte_bin; simpl; lia.
  - unfold fading_peaks, byte. repeat constructor; lia.
Defined.

(** ** Removing a source *)

(** X3.  [removeSource(idx)] on a live index: one entry fewer, the entries before
    [idx] stay where they are and those after it move down by one.  On an
    index past the end it is undefined. *)
Theorem removeSource_shifts (idx : nat) (srcs : list source_t) :
  (idx < length srcs)%nat ->
  exists srcs',
    removeSource idx srcs = Some srcs' /\
    S (length srcs') = length srcs /\
    (forall j, (j < idx)%nat -> nth_error srcs' j = nth_error srcs j) /\
    (forall j, (idx <= j)%nat -> nth_error srcs' j = nth_error srcs (S j)).
Proof.
  intros H. unfold removeSource.
  replace (idx <? length srcs)%nat with true by (symmetry; apply Nat.ltb_lt; exact H).
  eexists; split; [reflexivity|].
  assert (length (firstn idx srcs) = idx) as Hf by (rewrite length_firstn; lia).
  split; [|split].
  - rewrite length_app, Hf, length_skipn. lia.
  - intros j Hj. rewrite nth_error_app1 by lia. rewrite nth_error_firstn.
    replace (j <? idx)%nat with true by (symmetry; apply Nat.ltb_lt; exact Hj). reflexivity.
  - intros j Hj. rewrite nth_error_app2 by lia. rewrite Hf, nth_error_skipn.
    f_equal. lia.
Qed.

Lemma removeSource_shifts_witness :
  exists srcs',
    removeSource 1 [amber_source; teal_source; amber_source] = Some srcs' /\
    nth_error srcs' 0 = Some amber_source /\ nth_error srcs' 1 = Some amber_source.
Proof.
  destruct (removeSource_shifts 1 [amber_source; teal_source; amber_source])
    as (srcs' & E & _ & Hlow & Hhigh); [simpl; lia|].
  exists srcs'. split; [exact E|]. split.
  - rewrite (Hlow 0%nat) by lia. reflexivity.
  - rewrite (Hhigh 1%nat) by lia. reflexivity.
Defined.

Lemma removeSource_past_end (idx : nat) (srcs : list source_t) :
  (length srcs <= idx)%nat -> removeSource idx srcs = None.
Proof.
  intros H. unfold removeSource.
  replace (idx <? length srcs)%nat with false by (symmetry; apply Nat.ltb_ge; exact H).
  reflexivity.
Qed.

(** ** More on the aging loop *)

Lemma update_nth_app {A : Type} (pre : list A) (a v : A) (suf : list A) :
  update_nth (pre ++ a :: suf) (length pre) v = Some (pre ++ v :: suf).
Proof.
  induction pre as [|h t IH]; [reflexivity|].
  cbn [app length update_nth]. rewrite IH. reflexivity.
Qed.

Lemma nth_error_split {A : Type} (l : list A) (i : nat) (a : A) :
  nth_error l i = Some a ->
  exists pre suf, l = pre ++ a :: suf /\ length pre = i.
Proof.
  revert i; induction l as [|h t IH]; intros i H; destruct i as [|j]; simpl in H;
    try discriminate.
  - injection H as ->. exists [], t; split; reflexivity.
  - destruct (IH j H) as (pre & suf & -> & Hl).
    exists (h :: pre), suf; split; [reflexivity|simpl; lia].
Qed.

(** When no source is due, the aging loop removes nothing and makes every
    source one tick older, in place. *)
Lemma age_loop_fresh (suf : list source_t) :
  forall (pre : list source_t) (fuel : nat),
    Forall (fun s => age s <> LIFESPAN) suf ->
    (length suf <= fuel)%nat ->
    age_loop fuel (length pre) (pre ++ suf) = Some (pre ++ map older suf).
Proof.
  induction suf as [|s rest IH]; intros pre fuel Hf Hl.
  - cbn [map]. rewrite !app_nil_r. destruct fuel; simpl;
      replace (nth_error pre (length pre)) with (@None source_t)
        by (symmetry; apply nth_error_None; lia); reflexivity.
  - inversion Hf as [|? ? Hs Hrest]; subst.
    destruct fuel as [|fuel]; [simpl in Hl; lia|].
    cbn [age_loop]. rewrite nth_error_app2 by lia. rewrite Nat.sub_diag. cbn [nth_error].
    replace (age s =? LIFESPAN) with false by (symmetry; apply Z.eqb_neq; exact Hs).
    rewrite update_nth_app. cbn [bind]. change (set_age s (age s + 1)) with (older s).
    specialize (IH (pre ++ [older s]) fuel Hrest ltac:(simpl in Hl; lia)).
    rewrite length_app in IH. cbn [length] in IH.
    replace (length pre + 1)%nat with (S (length pre)) in IH by lia.
    rewrite <- app_assoc in IH. cbn [app] in IH.
    rewrite IH, <- app_assoc. reflexivity.
Qed.

(** X5.  When no source of the pool is due, the aging pass removes nothing:
    it makes every source one tick older and leaves it in its place. *)
Theorem age_sources_fresh (srcs : list source_t) :
  Forall (fun s => age s <> LIFESPAN) srcs ->
  age_sources srcs = Some (map older srcs).
Proof.
  intros H. unfold age_sources. apply (age_loop_fresh srcs [] (length srcs) H). lia.
Qed.

Lemma age_sources_fresh_witness :
  age_sources [amber_source; amber_source]
  = Some [set_age amber_source 1; set_age amber_source 1].
Proof.
  apply (age_sources_fresh [amber_source; amber_source]).
  repeat constructor; vm_compute; discriminate.
Defined.

(** The aging loop only ever drops sources from the front and only ever
    touches ages: what is left is, age aside, a tail of what was there, in
    the same order. *)
Lemma age_loop_drops_prefix (fuel : nat) :
  forall (i : nat) (srcs srcs' : list source_t),
    age_loop fuel i srcs = Some srcs' ->
    exists k, map ageless srcs' = skipn k (map ageless srcs).
Proof.
  induction fuel as [|f IH]; intros i srcs srcs'; simpl.
  - destruct (nth_error srcs i); [discriminate|].
    intros H; injection H as <-. exists 0%nat; reflexivity.
  - destruct (nth_error srcs i) as [s|] eqn:En.
    2: { intros H; injection H as <-. exists 0%nat; reflexivity. }
    destruct (age s =? LIFESPAN).
    + destruct (removeSource 0 srcs) as [r|] eqn:Er; cbn [bind]; [|discriminate].
      apply removeSource_head in Er. destruct Er as [-> _].
      intros H. destruct (IH _ _ _ H) as [k Hk].
      exists (S k). rewrite Hk. destruct srcs; [destruct k|]; reflexivity.
    + destruct (nth_error_split srcs i s En) as (pre & suf & -> & <-).
      rewrite update_nth_app. cbn [bind].
      intros H. destruct (IH _ _ _ H) as [k Hk].
      exists k. rewrite Hk, !map_app. reflexivity.
Qed.

(** X6.  The aging pass drops sources from the front only and changes ages
    only: age aside, the pool it leaves is a tail of the pool it found, in
    the same order, with positions and colours as they were. *)
Theorem age_sources_drops_prefix (srcs srcs' : list source_t) :
  age_sources srcs = Some srcs' ->
  exists k, map ageless srcs' = skipn k (map ageless srcs).
Proof. apply age_loop_drops_prefix. Qed.

Lemma age_sources_drops_prefix_witness :
  exists srcs' k,
    age_sources [set_age amber_source 1; teal_source; amber_source] = Some srcs' /\
    map ageless srcs' = skipn k (map ageless [set_age amber_source 1; teal_source; amber_source]).
Proof.
  eexists. 
  assert (age_sources [set_age amber_source 1; teal_source; amber_source] = Some _) as E
      by (vm_compute; reflexivity).
  destruct (age_sources_drops_prefix _ _ E) as [k Hk].
  exists k. split; [exact E|exact Hk].
Defined.

(** ** Ages *)

Lemma age_loop_ages (fuel : nat) :
  forall (i : nat) (srcs srcs' : list source_t),
    Forall age_in_range srcs ->
    age_loop fuel i srcs = Some srcs' ->
    Forall age_in_range srcs'.
Proof.
  induction fuel as [|f IH]; intros i srcs srcs' Hall; simpl.
  - destruct (nth_error srcs i); [discriminate|]. intros H; injection H as <-. exact Hall.
  - destruct (nth_error srcs i) as [s|] eqn:En.
    2: { intros H; injection H as <-. exact Hall. }
    destruct (age s =? LIFESPAN) eqn:Ea.
    + destruct (removeSource 0 srcs) as [r|] eqn:Er; cbn [bind]; [|discriminate].
      apply removeSource_head in Er. destruct Er as [-> _].
      apply IH. destruct srcs; [exact Hall|]. inversion Hall; assumption.
    + destruct (nth_error_split srcs i s En) as (pre & suf & -> & <-).
      rewrite update_nth_app. cbn [bind]. apply IH.
      apply Forall_app in Hall. destruct Hall as [Hpre Hsuf].
      inversion Hsuf as [|? ? Hs Hrest]; subst.
      apply Forall_app; split; [exact Hpre|]. constructor; [|exact Hrest].
      apply Z.eqb_neq in Ea. unfold age_in_range, LIFESPAN in *. simpl. lia.
Qed.

Lemma pool_step_ages (op : pool_op) (p p' : plugin) :
  nSources p <= MAX_SOURCES (layoutData p) ->
  Forall age_in_range (sources p) ->
  pool_step op p = Some p' ->
  Forall age_in_range (sources p').
Proof.
  intros Hinv Hall. destruct op as [i a|]; simpl.
  - intros H. apply addSource_cases in H. destruct H as [[_ ->]|[_ H]]; [exact Hall|].
    apply spawn_sources in H. destruct H as [_ (s & srcs & Hs & -> & Ha)].
    apply Forall_app; split.
    + destruct (nSources p >=? MAX_SOURCES (layoutData p)).
      * apply removeSource_head in Hs. destruct Hs as [-> _].
        destruct (sources p); [exact Hall|]. inversion Hall; assumption.
      * injection Hs as <-. exact Hall.
    + constructor; [|constructor]. unfold age_in_range, LIFESPAN. lia.
  - unfold age_pool. destruct (age_sources (sources p)) as [r|] eqn:E; cbn [bind];
      [|discriminate].
    intros H; injection H as <-. simpl. eapply age_loop_ages; eassumption.
Qed.

(** X7.  From an empty pool, whatever spawns and aging passes follow, the age of
    every source in the pool is between 0 and [LIFESPAN]: no source is ever
    aged past its lifespan. *)
Theorem pool_ages_in_range (p : plugin) (ops : list pool_op) (p' : plugin) :
  sources p = [] ->
  pool_run ops p = Some p' ->
  Forall age_in_range (sources p').
Proof.
  intros Hempty.
  assert (nSources p <= MAX_SOURCES (layoutData p)) as Hinv.
  { unfold nSources, MAX_SOURCES, nPanels, LIFESPAN. rewrite Hempty; simpl. lia. }
  assert (Forall age_in_range (sources p)) as Hall by (rewrite Hempty; constructor).
  clear Hempty. revert p Hinv Hall.
  induction ops as [|op rest IH]; intros p Hinv Hall; simpl.
  - intros H; injection H as <-. exact Hall.
  - destruct (pool_step op p) as [q|] eqn:E; cbn [bind]; [|discriminate].
    destruct (pool_step_bound op p q Hinv E) as [_ Hq].
    apply IH; [exact Hq|]. exact (pool_step_ages op p q Hinv Hall E).
Qed.

Lemma pool_ages_in_range_witness :
  exists p', pool_run two_beats_then_silence fresh_plugin = Some p' /\
             Forall age_in_range (sources p').
Proof.
  eexists; split; [vm_compute; reflexivity|].
  eapply (pool_ages_in_range fresh_plugin two_beats_then_silence);
    [reflexivity|vm_compute; reflexivity].
Defined.

(** ** Rendering does not look at ages *)

Lemma distance_ageless (px py : float) (s : source_t) (a : Z) :
  distance px py (x (set_age s a)) (y (set_age s a)) = distance px py (x s) (y s).
Proof. reflexivity. Qed.

Lemma mix_factor_ageless (px py : float) (s : source_t) (a : Z) :
  mix_factor px py (set_age s a) = mix_factor px py s.
Proof. unfold mix_factor. rewrite distance_ageless. reflexivity. Qed.

Lemma mix_ageless (px py : float) (acc : float * float * float) (s : source_t) (a : Z) :
  mix px py acc (set_age s a) = mix px py acc s.
Proof.
  destruct acc as [[r g] b]. unfold mix. rewrite mix_factor_ageless. reflexivity.
Qed.

(** X8.  The colour of a panel does not depend on the ages of the sources: a
    source weighs the same from its spawn to its removal. *)
Theorem renderPanel_ignores_age (panel : Panel) (srcs : list source_t)
        (new_age : source_t -> Z) :
  renderPanel panel (map (fun s => set_age s (new_age s)) srcs) = renderPanel panel srcs.
Proof.
  unfold renderPanel.
  generalize (float_of_int BASE_COLOUR_R, float_of_int BASE_COLOUR_G,
              float_of_int BASE_COLOUR_B) as acc.
  induction srcs as [|s rest IH]; intros acc; [reflexivity|].
  cbn [map]. rewrite !fold_left_cons, mix_ageless. apply IH.
Qed.

(** ** What a spawn leaves behind *)

Lemma nth_Z_In {A : Type} (l : list A) (i : Z) (a : A) : nth_Z l i = Some a -> In a l.
Proof.
  unfold nth_Z. destruct (i <? 0); [discriminate|]. apply nth_error_In.
Qed.

(** X9.  A call of [addSource] in a layout of at least two panels draws from the
    generator once and appends one source of age 0 to the pool as it was
    (below capacity) or to the pool less its first entry (at capacity): the
    new source sits on the centroid of one of the panels, its channels are
    those of the palette entry scaled by the intensity, and palette, layout,
    bins and counters are untouched. *)
Theorem addSource_spawns_on_centroid (i : Z) (a : float) (p p' : plugin) :
  2 <= nPanels (layoutData p) ->
  addSource i a p = Some p' ->
  exists panel c s kept,
    (nSources p < MAX_SOURCES (layoutData p) -> kept = sources p) /\
    (MAX_SOURCES (layoutData p) <= nSources p -> kept = tl (sources p)) /\
    In panel (panels (layoutData p)) /\
    nth_Z (palettenColors p) i = Some c /\
    x s = float_of_double (centroid_x panel) /\
    y s = float_of_double (centroid_y panel) /\
    scale (RGB.R c) a = Some (R s) /\
    scale (RGB.G c) a = Some (G s) /\
    scale (RGB.B c) a = Some (B s) /\
    age s = 0 /\
    sources p' = kept ++ [s] /\
    rand48 p' = snd (drand48 (rand48 p)) /\
    palettenColors p' = palettenColors p /\ nColors p' = nColors p /\
    layoutData p' = layoutData p /\ freqBins p' = freqBins p /\ cnt p' = cnt p.
Proof.
  intros Hn H. apply addSource_cases in H. destruct H as [[Hlt _]|[_ H]]; [lia|].
  revert H. unfold spawn. destruct (drand48 (rand48 p)) as [u seed'] eqn:Ed.
  destruct (int_of_float _) as [n1|]; cbn [bind]; [|discriminate].
  cbn [set_rand48 layoutData palettenColors].
  destruct (nth_Z (panels (layoutData p)) n1) as [panel|] eqn:Ep; cbn [bind]; [|discriminate].
  destruct (nth_Z (palettenColors p) i) as [c|] eqn:Ec; cbn [bind]; [|discriminate].
  destruct (scale (RGB.R c) a) as [r|] eqn:Er; cbn [bind]; [|discriminate].
  destruct (scale (RGB.G c) a) as [g|] eqn:Eg; cbn [bind]; [|discriminate].
  destruct (scale (RGB.B c) a) as [bl|] eqn:Eb; cbn [bind]; [|discriminate].
  destruct (if _ >=? _ then _ else _) as [kept|] eqn:Ek; cbn [bind]; [|discriminate].
  intros H; injection H as <-.
  exists panel, c, (mk_source (float_of_double (centroid_x panel))
                              (float_of_double (centroid_y panel)) r g bl 0), kept.
  assert ((nSources p < MAX_SOURCES (layoutData p) -> kept = sources p) /\
          (MAX_SOURCES (layoutData p) <= nSources p -> kept = tl (sources p))) as [Hk1 Hk2].
  { change (sources (set_rand48 p seed')) with (sources p) in Ek.
    change (nSources (set_rand48 p seed')) with (nSources p) in Ek.
    destruct (nSources p >=? MAX_SOURCES (layoutData p)) eqn:E.
    - rewrite Z.geb_leb in E. apply Z.leb_le in E.
      apply removeSource_head in Ek. destruct Ek as [-> _]. split; [lia|reflexivity].
    - rewrite Z.geb_leb in E. apply Z.leb_gt in E.
      injection Ek as <-. split; [reflexivity|lia]. }
  split; [exact Hk1|]. split; [exact Hk2|].
  cbn. repeat split; try reflexivity; try assumption.
  apply nth_Z_In with n1; exact Ep.
Qed.

Lemma addSource_spawns_on_centroid_witness :
  exists p' panel s,
    addSource 1 f_one fresh_plugin = Some p' /\
    In panel (panels four_panels) /\
    x s = float_of_double (centroid_x panel) /\
    sources p' = sources fresh_plugin ++ [s].
Proof.
  assert (addSource 1 f_one fresh_plugin = Some _) as E by (vm_compute; reflexivity).
  destruct (addSource_spawns_on_centroid 1 f_one fresh_plugin _ ltac:(vm_compute; discriminate) E)
    as (panel & c & s & kept & Hk & _ & Hin & _ & Hx & _ & _ & _ & _ & _ & Hs & _).
  rewrite (Hk ltac:(vm_compute; reflexivity)) in Hs.
  eexists _, panel, s. split; [exact E|]. split; [exact Hin|]. split; [exact Hx|exact Hs].
Defined.

Lemma scale_full_checked : forallb scale_full_ok (Zrange 0 256) = true.
Proof. vm_compute. reflexivity. Qed.

(** X10.  At full intensity a channel within 0..255 comes through unchanged. *)
Theorem scale_full (c : Z) : channel c -> scale c f_one = Some c.
Proof.
  intros Hc. unfold channel in Hc.
  pose proof (Zrange_forallb scale_full_ok 0 256 scale_full_checked c ltac:(lia)) as H.
  unfold scale_full_ok in H.
  destruct (scale c f_one) as [r|]; [|discriminate H].
  f_equal. apply Z.eqb_eq, H.
Qed.

Lemma scale_full_witness : scale 200 f_one = Some 200.
Proof. apply (scale_full 200). unfold channel; lia. Defined.

(** ** What the initialisation leaves behind *)

Lemma nth_error_map_seq {A : Type} (f : nat -> A) (n : nat) :
  forall (start i : nat), (i < n)%nat ->
    nth_error (map f (seq start n)) i = Some (f (start + i)%nat).
Proof.
  induction n as [|n IH]; intros start i Hi; [lia|].
  destruct i as [|i]; cbn [seq map nth_error].
  - rewrite Nat.add_0_r. reflexivity.
  - rewrite IH by lia. f_equal. f_equal. lia.
Qed.

(** X12.  A completed initialisation has at least two panels, an array of
    [nPanels - 2] bins and at most that many colours in use; the bins in use
    start with a floor of 0, a running maximum of 50 and a trigger record of
    1, while their two history fields are left as the fresh memory had
    them. *)
Theorem initPlugin_bins (layout : LayoutData) (palette : list RGB.t)
        (raw_bins : nat -> freq_bin) (seed : Z) (p : plugin) :
  initPlugin layout palette raw_bins seed = Some p ->
  2 <= nPanels layout /\
  Z.of_nat (length (freqBins p)) = nPanels layout - 2 /\
  nColors p <= nPanels layout - 2 /\
  forall i, Z.of_nat i < nColors p ->
    exists b, nth_error (freqBins p) i = Some b /\
              latest_minimum b = 0 /\ runningMax b = 50 /\ maximumTrigger b = 1 /\
              previousPower b = previousPower (raw_bins i) /\
              secondPreviousPower b = secondPreviousPower (raw_bins i).
Proof.
  unfold initPlugin.
  destruct (MAX_SOURCES layout <? 0); cbn [bind]; [discriminate|].
  unfold new_array, MAX_PALETTE_nColors.
  destruct (nPanels layout - 2 <? 0) eqn:E; cbn [bind]; [discriminate|].
  apply Z.ltb_ge in E. intros H; injection H as <-. cbn [freqBins nColors].
  assert ((if Z.of_nat (length palette) >? nPanels layout - 2
           then nPanels layout - 2 else Z.of_nat (length palette)) <= nPanels layout - 2)
    as Hcap.
  { destruct (Z.of_nat (length palette) >? nPanels layout - 2) eqn:E'; [lia|].
    rewrite Z.gtb_ltb in E'. apply Z.ltb_ge in E'. exact E'. }
  split; [lia|]. split; [rewrite length_map, length_seq; lia|]. split; [exact Hcap|].
  intros i Hi. rewrite nth_error_map_seq by lia. cbn [Nat.add].
  eexists; split; [reflexivity|].
  replace (Z.of_nat i <? _) with true by (symmetry; apply Z.ltb_lt; exact Hi).
  cbn. repeat split; reflexivity.
Qed.

Lemma initPlugin_bins_witness :
  2 <= nPanels four_panels /\
  Z.of_nat (length (freqBins fresh_plugin)) = nPanels four_panels - 2.
Proof.
  destruct (initPlugin_bins four_panels red_green (fun _ => blank_bin) default_seed
              fresh_plugin ltac:(vm_compute; reflexivity)) as (H2 & Hl & _).
  split; [exact H2|exact Hl].
Defined.

(** ** The frame as a whole *)

Lemma update_nth_nth_error {A : Type} (l : list A) (i : nat) (v : A) (l' : list A) :
  update_nth l i v = Some l' ->
  nth_error l' i = Some v /\ forall j, j <> i -> nth_error l' j = nth_error l j.
Proof.
  revert i l'; induction l as [|h t IH]; intros i l' H.
  - destruct i; discriminate.
  - destruct i as [|i]; cbn [update_nth] in H.
    + injection H as <-. split; [reflexivity|]. intros [|j] Hj; [congruence|reflexivity].
    + destruct (update_nth t i v) as [t'|] eqn:E; cbn [bind] in H; [|discriminate].
      injection H as <-. destruct (IH i t' E) as [Hi Ho]. split; [exact Hi|].
      intros [|j] Hj; [reflexivity|]. cbn [nth_error]. apply Ho. congruence.
Qed.

Lemma update_Z_length {A : Type} (l : list A) (i : Z) (v : A) (l' : list A) :
  update_Z l i v = Some l' -> length l' = length l.
Proof. unfold update_Z. destruct (i <? 0); [discriminate|]. apply update_nth_length. Qed.

Lemma for_loop_invariant {S : Type} (P : S -> Prop) (body : Z -> S -> option S) :
  (forall i s s', P s -> body i s = Some s' -> P s') ->
  forall (n : nat) (from : Z) (s s' : S),
    P s -> for_loop n from body s = Some s' -> P s'.
Proof.
  intros Hbody. induction n as [|n IH]; intros from s s' Hs; cbn [for_loop].
  - intros H; injection H as <-. exact Hs.
  - destruct (body from s) as [s1|] eqn:E; cbn [bind]; [|discriminate].
    apply IH. eapply Hbody; eassumption.
Qed.

Lemma spawn_keeps_fields (i : Z) (a : float) (p p' : plugin) :
  spawn i a p = Some p' ->
  palettenColors p' = palettenColors p /\ nColors p' = nColors p /\
  freqBins p' = freqBins p /\ cnt p' = cnt p.
Proof.
  unfold spawn. destruct (drand48 (rand48 p)) as [u seed'].
  destruct (int_of_float _) as [n1|]; cbn [bind]; [|discriminate].
  destruct (nth_Z _ n1) as [panel|]; cbn [bind]; [|discriminate].
  destruct (nth_Z _ i) as [c|]; cbn [bind]; [|discriminate].
  destruct (scale (RGB.R c) a) as [r|]; cbn [bind]; [|discriminate].
  destruct (scale (RGB.G c) a) as [g|]; cbn [bind]; [|discriminate].
  destruct (scale (RGB.B c) a) as [b|]; cbn [bind]; [|discriminate].
  destruct (if _ >=? _ then _ else _) as [kept|]; cbn [bind]; [|discriminate].
  intros H; injection H as <-. cbn. repeat split; reflexivity.
Qed.

Lemma addSource_steady (L : LayoutData) (pal : list RGB.t) (n : Z) (bins : nat) (c : Z)
      (i : Z) (a : float) (p p' : plugin) :
  steady L pal n bins c p -> addSource i a p = Some p' -> steady L pal n bins c p'.
Proof.
  intros (Hl & Hp & Hn & Hb & Hc & Hcap & Hages) H.
  assert (nSources p <= MAX_SOURCES (layoutData p)) as Hcap' by (rewrite Hl; exact Hcap).
  pose proof (addSource_bound i a p p' Hcap' H) as [Hl' Hcap''].
  pose proof (pool_step_ages (Spawn i a) p p' Hcap' Hages H) as Hages'.
  destruct (addSource_cases i a p p' H) as [[_ ->]|[_ Hsp]].
  - repeat split; assumption.
  - destruct (spawn_keeps_fields i a p p' Hsp) as (Hp' & Hn' & Hb' & Hc').
    unfold steady. rewrite Hl', Hp', Hn', Hb', Hc'. rewrite Hl' in Hcap''.
    rewrite Hl in Hcap''. repeat split; assumption.
Qed.

Lemma process_bin_steady (lq : Z -> Z -> double) (fft : list Z)
      (L : LayoutData) (pal : list RGB.t) (n : Z) (bins : nat) (c : Z)
      (i : Z) (p p' : plugin) :
  steady L pal n bins c p -> process_bin lq fft i p = Some p' -> steady L pal n bins c p'.
Proof.
  intros Hs. unfold process_bin.
  destruct (nth_Z (freqBins p) i) as [b|]; cbn [bind]; [|discriminate].
  destruct (nth_Z fft i) as [power|]; cbn [bind]; [|discriminate].
  destruct (beat_detector _) as [[b1 beat]|]; cbn [bind]; [|discriminate].
  assert (forall b2 bins2, update_Z (freqBins p) i b2 = Some bins2 ->
                           steady L pal n bins c (set_freqBins p bins2)) as Hupd.
  { intros b2 bins2 E. apply update_Z_length in E.
    destruct Hs as (Hl & Hp & Hn & Hb & Hc & Hcap & Hages).
    unfold steady, nSources. cbn. rewrite E. repeat split; assumption. }
  destruct (beat mod 256 =? 0).
  - destruct (update_Z (freqBins p) i b1) as [bins2|] eqn:E; cbn [bind]; [|discriminate].
    intros H; injection H as <-. apply (Hupd b1 bins2 E).
  - destruct (update_Z (freqBins p) i _) as [bins2|] eqn:E; cbn [bind]; [|discriminate].
    apply addSource_steady. apply (Hupd _ bins2 E).
Qed.

Lemma render_loop_frames (q : plugin) (n : nat) :
  forall (from : nat) (frames frames' : list Frame.t),
    for_loop n (Z.of_nat from) (render_into q) frames = Some frames' ->
    length frames' = length frames /\
    (forall j, (from <= j < from + n)%nat ->
       exists panel R G B,
         nth_error (panels (layoutData q)) j = Some panel /\
         renderPanel panel (sources q) = Some (R, G, B) /\
         nth_error frames' j = Some (Frame.mk (panelId panel) R G B TRANSITION_TIME)) /\
    (forall j, (j < from \/ from + n <= j)%nat -> nth_error frames' j = nth_error frames j).
Proof.
  induction n as [|n IH]; intros from frames frames'; cbn [for_loop].
  - intros H; injection H as <-. split; [reflexivity|]. split; [intros j Hj; lia|reflexivity].
  - unfold render_into at 1. unfold nth_Z, update_Z.
    replace (Z.of_nat from <? 0) with false by (symmetry; apply Z.ltb_ge; lia).
    rewrite Nat2Z.id.
    destruct (nth_error (panels (layoutData q)) from) as [panel|] eqn:Ep; cbn [bind];
      [|discriminate].
    destruct (renderPanel panel (sources q)) as [[[R G] B]|] eqn:Er; cbn [bind];
      [|discriminate].
    destruct (update_nth frames from _) as [fr|] eqn:Eu; cbn [bind]; [|discriminate].
    replace (Z.of_nat from + 1) with (Z.of_nat (S from)) by lia.
    intros H. destruct (IH (S from) fr frames' H) as (Hlen & Hin & Hout).
    pose proof (update_nth_length _ _ _ _ Eu) as Hlen'.
    destruct (update_nth_nth_error _ _ _ _ Eu) as [Hhere Hothers].
    split; [lia|]. split.
    + intros j Hj. destruct (Nat.eq_dec j from) as [->|Hne].
      * exists panel, R, G, B. split; [exact Ep|]. split; [exact Er|].
        rewrite Hout by lia. exact Hhere.
      * apply Hin. lia.
    + intros j Hj. rewrite Hout by lia. apply Hothers. lia.
Qed.

(** X13.  Past the warm-up a call that returns has filled exactly one frame per
    panel, in the order of the layout: entry [i] carries the identifier of
    panel [i], the colour that [renderPanel] gives it for the pool as the
    beats of this call have left it (before the aging loop runs), and the
    transition time; the buffer keeps its length and its entries past the
    panels; [*nFrames] is the number of panels. *)
Theorem getPluginFrame_output (lq : Z -> Z -> double) (fft : list Z) (p : plugin)
        (frames : list Frame.t) (nFrames : Z)
        (p' : plugin) (frames' : list Frame.t) (nFrames' : Z) :
  SKIP_COUNT <= cnt p ->
  getPluginFrame lq fft p frames nFrames = Some (p', frames', nFrames') ->
  exists q,
    for_loop (Z.to_nat (nColors p)) 0 (process_bin lq fft) p = Some q /\
    layoutData q = layoutData p /\
    nFrames' = nPanels (layoutData p) /\
    length frames' = length frames /\
    (forall i panel,
       nth_error (panels (layoutData p)) i = Some panel ->
       exists R G B,
         renderPanel panel (sources q) = Some (R, G, B) /\
         nth_error frames' i = Some (Frame.mk (panelId panel) R G B TRANSITION_TIME)) /\
    (forall j, (length (panels (layoutData p)) <= j)%nat ->
               nth_error frames' j = nth_error frames j).
Proof.
  intros Hwarm. unfold getPluginFrame.
  replace (cnt p <? SKIP_COUNT) with false by (symmetry; apply Z.ltb_ge; exact Hwarm).
  destruct (for_loop _ 0 (process_bin lq fft) p) as [q|] eqn:Eq; cbn [bind]; [|discriminate].
  assert (layoutData q = layoutData p) as Hl.
  { refine (for_loop_invariant (fun s => layoutData s = layoutData p)
              (process_bin lq fft) _ _ _ p q eq_refl Eq).
    intros i s s' Hs. unfold process_bin.
    destruct (nth_Z (freqBins s) i) as [b|]; cbn [bind]; [|discriminate].
    destruct (nth_Z fft i) as [power|]; cbn [bind]; [|discriminate].
    destruct (beat_detector _) as [[b1 beat]|]; cbn [bind]; [|discriminate].
    destruct (beat mod 256 =? 0).
    - destruct (update_Z _ i b1) as [bins2|]; cbn [bind]; [|discriminate].
      intros H; injection H as <-. exact Hs.
    - destruct (update_Z _ i _) as [bins2|]; cbn [bind]; [|discriminate].
      intros H. apply addSource_cases in H. destruct H as [[_ ->]|[_ H]]; [exact Hs|].
      apply spawn_sources in H. destruct H as [-> _]. exact Hs. }
  destruct (for_loop _ 0 (render_into q) frames) as [fr|] eqn:Er; cbn [bind]; [|discriminate].
  destruct (age_sources (sources q)) as [srcs|]; cbn [bind]; [|discriminate].
  intros H; injection H as <- <- <-.
  change 0 with (Z.of_nat 0) in Er. apply render_loop_frames in Er.
  destruct Er as (Hlen & Hin & Hout). rewrite Hl in *.
  exists q. repeat split; try assumption; try reflexivity.
  - intros i panel Hp.
    destruct (Hin i) as (panel' & R & G & B & Hp' & Hr & Hf).
    { split; [lia|]. apply nth_error_Some. congruence. }
    rewrite Hp in Hp'. injection Hp' as <-. exists R, G, B. split; assumption.
  - intros j Hj. apply Hout. lia.
Qed.

Lemma getPluginFrame_output_witness :
  exists p' frames',
    getPluginFrame unit_quotient [200; 17] warm_plugin (repeat black_frame 5) 0
    = Some (p', frames', 4) /\
    length frames' = 5%nat /\ nth_error frames' 4 = Some black_frame.
Proof.
  assert (getPluginFrame unit_quotient [200; 17] warm_plugin (repeat black_frame 5) 0
          = Some (_, _, 4)) as E by (vm_compute; reflexivity).
  destruct (getPluginFrame_output unit_quotient [200; 17] warm_plugin
              (repeat black_frame 5) 0 _ _ 4 ltac:(vm_compute; discriminate) E)
    as (q & _ & _ & _ & Hlen & _ & Hout).
  eexists _, _. split; [exact E|]. split; [exact Hlen|].
  rewrite (Hout 4%nat) by (simpl; lia). reflexivity.
Defined.

Lemma getPluginFrame_steady (lq : Z -> Z -> double) (fft : list Z)
      (L : LayoutData) (pal : list RGB.t) (n : Z) (bins : nat) (c : Z)
      (p : plugin) (frames : list Frame.t) (nFrames : Z)
      (p' : plugin) (frames' : list Frame.t) (nFrames' : Z) :
  steady L pal n bins c p -> 0 <= c <= SKIP_COUNT ->
  getPluginFrame lq fft p frames nFrames = Some (p', frames', nFrames') ->
  steady L pal n bins (Z.min SKIP_COUNT (c + 1)) p' /\ length frames' = length frames.
Proof.
  intros Hs Hc. unfold getPluginFrame.
  pose proof Hs as (Hl & Hp & Hn & Hb & Hcnt & Hcap & Hages).
  rewrite Hcnt. destruct (c <? SKIP_COUNT) eqn:E.
  - apply Z.ltb_lt in E. intros H; injection H as <- <- _. split; [|reflexivity].
    unfold steady, nSources. cbn. repeat split; try assumption. lia.
  - apply Z.ltb_ge in E.
    destruct (for_loop _ 0 (process_bin lq fft) p) as [q|] eqn:Eq; cbn [bind]; [|discriminate].
    assert (steady L pal n bins c q) as Hq.
    { refine (for_loop_invariant (steady L pal n bins c) (process_bin lq fft) _ _ _ p q Hs Eq).
      intros i s s'. apply process_bin_steady. }
    destruct (for_loop _ 0 (render_into q) frames) as [fr|] eqn:Er; cbn [bind]; [|discriminate].
    destruct (age_sources (sources q)) as [srcs|] eqn:Ea; cbn [bind]; [|discriminate].
    intros H; injection H as <- <- _.
    change 0 with (Z.of_nat 0) in Er. apply render_loop_frames in Er.
    destruct Er as (Hlen & _). split; [|exact Hlen].
    destruct Hq as (Hl' & Hp' & Hn' & Hb' & Hcnt' & Hcap' & Hages').
    unfold steady, nSources. cbn. repeat split; try assumption.
    + lia.
    + apply age_loop_length in Ea. unfold nSources in Hcap'. lia.
    + eapply age_loop_ages; eassumption.
Qed.

Lemma frames_run_steady (lq : Z -> Z -> double)
      (L : LayoutData) (pal : list RGB.t) (n : Z) (bins : nat) (calls : list (list Z)) :
  forall (c : Z) (p : plugin) (frames : list Frame.t) (nFrames : Z)
         (p' : plugin) (frames' : list Frame.t) (nFrames' : Z),
    steady L pal n bins c p -> 0 <= c <= SKIP_COUNT ->
    frames_run lq calls p frames nFrames = Some (p', frames', nFrames') ->
    steady L pal n bins (Z.min SKIP_COUNT (c + Z.of_nat (length calls))) p' /\
    length frames' = length frames.
Proof.
  induction calls as [|fft rest IH]; intros c p frames nFrames p' frames' nFrames' Hs Hc.
  - cbn [frames_run length]. intros H; injection H as <- <- _. split; [|reflexivity].
    replace (Z.min SKIP_COUNT (c + Z.of_nat 0)) with c by lia. exact Hs.
  - cbn [frames_run].
    destruct (getPluginFrame lq fft p frames nFrames) as [[[p1 fr1] n1]|] eqn:E;
      cbn [bind]; [|discriminate].
    destruct (getPluginFrame_steady lq fft L pal n bins c p frames nFrames p1 fr1 n1 Hs Hc E)
      as [Hs1 Hlen1].
    intros H.
    destruct (IH _ _ _ _ _ _ _ Hs1 ltac:(unfold SKIP_COUNT in *; lia) H) as [Hs' Hlen'].
    split; [|congruence].
    replace (Z.min SKIP_COUNT (c + Z.of_nat (length (fft :: rest))))
      with (Z.min SKIP_COUNT (Z.min SKIP_COUNT (c + 1) + Z.of_nat (length rest)))
      by (cbn [length]; unfold SKIP_COUNT; lia).
    exact Hs'.
Qed.

(** X14.  Whatever calls of [getPluginFrame] follow the initialisation and
    whatever bytes they are given, as long as they return: layout, palette,
    number of colours and number of bins stay as the initialisation left
    them; the pool holds at most [MAX_SOURCES] sources, all of an age
    between 0 and [LIFESPAN]; the skip counter is the number of calls capped
    at 50; and the frame buffer keeps its length. *)
Theorem frames_keep_pool_in_bounds (lq : Z -> Z -> double)
        (layout : LayoutData) (palette : list RGB.t) (raw_bins : nat -> freq_bin)
        (seed : Z) (p : plugin) (calls : list (list Z))
        (frames : list Frame.t) (nFrames : Z)
        (p' : plugin) (frames' : list Frame.t) (nFrames' : Z) :
  initPlugin layout palette raw_bins seed = Some p ->
  frames_run lq calls p frames nFrames = Some (p', frames', nFrames') ->
  layoutData p' = layout /\ palettenColors p' = palette /\ nColors p' = nColors p /\
  length (freqBins p') = length (freqBins p) /\
  cnt p' = Z.min SKIP_COUNT (Z.of_nat (length calls)) /\
  nSources p' <= MAX_SOURCES layout /\
  Forall age_in_range (sources p') /\
  length frames' = length frames.
Proof.
  intros Hinit Hrun. apply initPlugin_fields in Hinit.
  destruct Hinit as (Hc & Hs & Hl & Hp & _ & _).
  assert (steady layout palette (nColors p) (length (freqBins p)) 0 p) as Hsteady.
  { unfold steady, nSources, MAX_SOURCES, nPanels, LIFESPAN. rewrite Hs.
    repeat split; try assumption; [simpl; lia|constructor]. }
  destruct (frames_run_steady lq layout palette (nColors p) (length (freqBins p)) calls
              0 p frames nFrames p' frames' nFrames' Hsteady
              ltac:(unfold SKIP_COUNT; lia) Hrun)
    as [(H1 & H2 & H3 & H4 & H5 & H6 & H7) H8].
  rewrite Z.add_0_l in H5. repeat split; assumption.
Qed.

Lemma frames_keep_pool_in_bounds_witness :
  exists p' frames' nFrames',
    frames_run unit_quotient (repeat [200; 17] 50 ++ [[200; 17]; [255; 90]; [0; 0]])
               fresh_plugin (repeat black_frame 4) 0
    = Some (p', frames', nFrames') /\
    nSources p' <= MAX_SOURCES four_panels /\ cnt p' = 50.
Proof.
  assert (frames_run unit_quotient (repeat [200; 17] 50 ++ [[200; 17]; [255; 90]; [0; 0]])
                     fresh_plugin (repeat black_frame 4) 0 = Some (_, _, _)) as E
      by (vm_compute; reflexivity).
  destruct (frames_keep_pool_in_bounds unit_quotient four_panels red_green
              (fun _ => blank_bin) default_seed fresh_plugin _ _ _ _ _ _
              ltac:(vm_compute; reflexivity) E)
    as (_ & _ & _ & _ & Hcnt & Hcap & _).
  eexists _, _, _. split; [exact E|]. split; [exact Hcap|exact Hcnt].
Defined.

(** ** More on distances *)






(** ** More on the running maximum *)



(** ** More on the intensity *)

(** X18.  Whatever the quotient of logarithms yields, the intensity handed to
    [addSource] is never above 1.0. *)
Theorem beat_intensity_at_most_one (lq : Z -> Z -> double) (b : freq_bin) :
  SFltb d_one (double_of_float (beat_intensity lq b)) = false.
Proof.
  unfold beat_intensity.
  destruct (SFltb d_one (double_of_float (if _ && _ then _ else _))) eqn:E;
    [reflexivity|exact E].
Qed.

Lemma beat_intensity_degenerate_witness :
  beat_intensity unit_quotient (mk_bin 0 200 0 1 0 1 0 0) = f_one.
Proof.
  apply (beat_intensity_degenerate unit_quotient (mk_bin 0 200 0 1 0 1 0 0)).
  right. simpl. lia.
Defined.

(** ** More on the initialisation *)

(** X11.  With at least two panels the initialisation completes: the pool is
    empty, the skip counter is 0, and the number of colours in use is the
    smaller of the palette's length and [nPanels - 2]. *)
Theorem initPlugin_two_panels (layout : LayoutData) (palette : list RGB.t)
        (raw_bins : nat -> freq_bin) (seed : Z) :
  2 <= nPanels layout ->
  exists p,
    initPlugin layout palette raw_bins seed = Some p /\
    nColors p = Z.min (Z.of_nat (length palette)) (nPanels layout - 2) /\
    sources p = [] /\ cnt p = 0 /\ rand48 p = seed.
Proof.
  intros H. destruct (initPlugin_defined layout palette raw_bins seed H) as [p E].
  exists p. split; [exact E|].
  pose proof (initPlugin_nColors layout palette raw_bins seed p E) as [Hgt Hle].
  pose proof (initPlugin_fields layout palette raw_bins seed p E) as (Hc & Hs & _).
  split; [|split; [exact Hs|split; [exact Hc|]]].
  - destruct (Z_le_gt_dec (Z.of_nat (length palette)) (nPanels layout - 2)) as [Hl|Hg].
    + rewrite (Hle Hl). lia.
    + rewrite (Hgt Hg). lia.
  - revert E. unfold initPlugin.
    destruct (MAX_SOURCES layout <? 0); cbn [bind]; [discriminate|].
    destruct (new_array _ _); cbn [bind]; [|discriminate].
    intros E; injection E as <-. reflexivity.
Qed.

Lemma initPlugin_two_panels_witness :
  exists p, initPlugin four_panels [RGB.mk 1 2 3; RGB.mk 4 5 6; RGB.mk 7 8 9]
                       (fun _ => blank_bin) default_seed = Some p /\
            nColors p = 2.
Proof.
  destruct (initPlugin_two_panels four_panels [RGB.mk 1 2 3; RGB.mk 4 5 6; RGB.mk 7 8 9]
              (fun _ => blank_bin) default_seed ltac:(vm_compute; discriminate))
    as (p & E & Hn & _).
  exists p. split; [exact E|exact Hn].
Defined.

Lemma no_colours_no_sources_witness :
  exists p' frames' nFrames',
    frames_run unit_quotient (repeat [] 60)
               (mk_plugin [] 0 four_panels [] [blank_bin; blank_bin] 0 default_seed)
               (repeat black_frame 4) 0
    = Some (p', frames', nFrames') /\
    sources p' = [].
Proof.
  apply (no_colours_no_sources unit_quotient four_panels (fun _ => blank_bin) default_seed
           (mk_plugin [] 0 four_panels [] [blank_bin; blank_bin] 0 default_seed)
           (repeat [] 60)).
  - reflexivity.
  - simpl; lia.
Defined.

(** ** The bytes that a frame reads *)

Lemma for_loop_ext {S : Type} (body body' : Z -> S -> option S) (n : nat) :
  forall (from : Z) (s : S),
    (forall i s0, from <= i < from + Z.of_nat n -> body i s0 = body' i s0) ->
    for_loop n from body s = for_loop n from body' s.
Proof.
  induction n as [|n IH]; intros from s H; [reflexivity|].
  cbn [for_loop]. rewrite (H from s) by lia.
  destruct (body' from s) as [s1|]; cbn [bind]; [|reflexivity].
  apply IH. intros i s0 Hi. apply H. lia.
Qed.

(** X20.  A call of [getPluginFrame] reads the FFT bytes of the bins in use
    and no others: two arrays of bytes that agree below [nColors] give the
    same state, the same frames and the same [*nFrames]. *)
Theorem getPluginFrame_reads_used_bins (lq : Z -> Z -> double) (fft fft' : list Z)
        (p : plugin) (frames : list Frame.t) (nFrames : Z) :
  (forall i, 0 <= i < nColors p -> nth_Z fft i = nth_Z fft' i) ->
  getPluginFrame lq fft p frames nFrames = getPluginFrame lq fft' p frames nFrames.
Proof.
  intros H. unfold getPluginFrame. destruct (cnt p <? SKIP_COUNT); [reflexivity|].
  rewrite (for_loop_ext (process_bin lq fft) (process_bin lq fft')); [reflexivity|].
  intros i s0 Hi. unfold process_bin.
  destruct (nth_Z (freqBins s0) i) as [b|]; cbn [bind]; [|reflexivity].
  rewrite H; [reflexivity|]. lia.
Qed.

Lemma getPluginFrame_reads_used_bins_witness :
  getPluginFrame unit_quotient [200; 17] warm_plugin (repeat black_frame 4) 0
  = getPluginFrame unit_quotient [200; 17; 99; 3] warm_plugin (repeat black_frame 4) 0.
Proof.
  apply (getPluginFrame_reads_used_bins unit_quotient [200; 17] [200; 17; 99; 3]
           warm_plugin (repeat black_frame 4) 0).
  intros i Hi. change (nColors warm_plugin) with 2 in Hi.
  assert (i = 0 \/ i = 1) as [->| ->] by lia; reflexivity.
Defined.
